(** * Knowledge-base population reader

    A shallow embedding of [jack/readers/knowledge_base_population/models.py]:
    the input module (vocabulary construction, preprocessing, batch assembly
    with negative sampling) and the output module (logits to answers).

    Python values are modelled as follows: [str] as [string] (characters
    stand for code points below 256), [int] as [Z], [list] as [list],
    [dict] as [gmap], a [set] object as the expression that built it, with
    its elements as a [gset] and the iteration order the interpreter gives
    that object, exceptions as the left summand of a state and exception
    monad. *)
From stdpp Require Import gmap strings list fin_maps.
From Stdlib Require Import ZArith Lia.

(** ** Python runtime *)
Module Py.

Inductive exn : Type :=
  | ValueError
  | KeyError (key : string)
  | IndexError
  | TypeError
  | AttributeError (name : string)
  | UnboundLocalError (name : string).

(** Computations over a mutable object of type [S] that may raise: an
    exception leaves the mutations done so far in place. *)
Definition M (S A : Type) : Type := S → (exn + A) * S.

Definition ret {S A} (a : A) : M S A := λ σ, (inr a, σ).
Definition raise {S A} (e : exn) : M S A := λ σ, (inl e, σ).
Definition bind {S A B} (c : M S A) (k : A → M S B) : M S B :=
  λ σ, match c σ with
       | (inr a, σ') => k a σ'
       | (inl e, σ') => (inl e, σ')
       end.
Definition get {S} : M S S := λ σ, (inr σ, σ).
Definition put {S} (σ' : S) : M S unit := λ _, (inr tt, σ').
Definition lift {S A} (r : exn + A) : M S A := λ σ, (r, σ).

Notation "'let*' x := c 'in' k" := (bind c (λ x, k))
  (at level 10, x binder, c at level 100, k at level 200, only parsing).
Notation "'let*' ' pat := c 'in' k" :=
  (bind c (λ x, match x with pat => k end))
  (at level 10, pat pattern, c at level 100, k at level 200, only parsing).

(** [for x in l: acc = body(acc, x)] *)
Fixpoint for_ {S A B} (l : list A) (body : B → A → M S B) (acc : B) : M S B :=
  match l with
  | [] => ret acc
  | x :: l' => let* acc' := body acc x in for_ l' body acc'
  end.

(** [str.isspace] on one character: the white space of [str.split()]. *)
Definition isspace (c : Ascii.ascii) : bool :=
  let n := Ascii.N_of_ascii c in
  ((9 <=? n) && (n <=? 13) || (28 <=? n) && (n <=? 32)
   || (n =? 133) || (n =? 160))%N.

(** [str.split()] with no separator: maximal runs of non-space characters. *)
Fixpoint split_from (cur : string) (s : string) : list string :=
  match s with
  | EmptyString => match cur with EmptyString => [] | _ => [cur] end
  | String c s' =>
      if isspace c
      then match cur with
           | EmptyString => split_from EmptyString s'
           | _ => cur :: split_from EmptyString s'
           end
      else split_from (cur +:+ String c EmptyString) s'
  end.
Definition split (s : string) : list string := split_from EmptyString s.

(** [a, b, c = l] and the target [[a, b, c]] of a comprehension. *)
Definition unpack3 {A} (l : list A) : exn + (A * A * A) :=
  match l with
  | [a; b; c] => inr (a, b, c)
  | _ => inl ValueError
  end.

(** [l[i]] for [0 <= i]. *)
Definition getitem {A} (l : list A) (i : nat) : exn + A :=
  match l !! i with
  | Some x => inr x
  | None => inl IndexError
  end.

(** [d[k]] on a [dict] with [str] keys. *)
Definition dict_getitem {V} (d : gmap string V) (k : string) : exn + V :=
  match d !! k with
  | Some v => inr v
  | None => inl (KeyError k)
  end.

(** [d.get(k, default)] *)
Definition dict_get {V} (d : gmap string V) (k : string) (default : V) : V :=
  match d !! k with
  | Some v => v
  | None => default
  end.

(** [{k: v for k, v in kvs}]: a later binding of a key replaces an earlier one. *)
Definition dict_of_pairs {V} (kvs : list (string * V)) : gmap string V :=
  foldl (λ d kv, <[kv.1 := kv.2]> d) ∅ kvs.

(** [enumerate(l)] *)
Definition enumerate {A} (l : list A) : list (Z * A) :=
  imap (λ i x, (Z.of_nat i, x)) l.

(** [range(k)] as the list of its indices; empty for [k <= 0]. *)
Definition range (k : Z) : list nat := seq 0 (Z.to_nat k).

(** [list(l)] on values: a list with the same items. *)
Definition list_copy {A} (l : list A) : list A := l.

(** A local variable that is bound on some paths only. *)
Definition local {A} (name : string) (v : option A) : exn + A :=
  match v with
  | Some x => inr x
  | None => inl (UnboundLocalError name)
  end.

(** [[f(x) for x in l]] where [f] may raise. *)
Fixpoint list_comp {A B} (f : A → exn + B) (l : list A) : exn + list B :=
  match l with
  | [] => inr []
  | x :: l' =>
      match f x with
      | inl e => inl e
      | inr y => match list_comp f l' with
                 | inl e => inl e
                 | inr ys => inr (y :: ys)
                 end
      end
  end.

(** A [set] of strings, as the expression that built it: the elements in
    the order in which a display or comprehension added them, or the union
    [a | b] of two sets.  Two sets with the same elements that were built
    differently are different objects here, as their hash tables may be. *)
Inductive pyset : Type :=
  | set_of_list (xs : list string)
  | set_union (a b : pyset).

(** The elements of a set. *)
Fixpoint members (X : pyset) : gset string :=
  match X with
  | set_of_list xs => list_to_set xs
  | set_union a b => members a ∪ members b
  end.

(** The elements of a set in the order in which they were first added;
    [a | b] adds the elements of [a], then those of [b]. *)
Fixpoint insertions (X : pyset) : list string :=
  match X with
  | set_of_list xs => xs
  | set_union a b => insertions a ++ insertions b
  end.

(** [{f(x) for x in l}] *)
Definition set_comp {A} (f : A → exn + string) (l : list A) : exn + pyset :=
  match list_comp f l with
  | inl e => inl e
  | inr ys => inr (set_of_list ys)
  end.

(** What the interpreter fixes and the program does not: the order in which
    a [set] of strings is iterated, and the pseudo random generator behind
    [random.Random].  The order follows the hashes of the elements, which
    are salted per process, and the layout of the hash table, which depends
    on how the set was built: it is a function of the set object, not of its
    elements alone, and lists each element once. *)
Class Runtime : Type := {
  set_iter : pyset → list string;
  set_iter_perm : ∀ X, set_iter X ≡ₚ elements (members X);
  Random : Type;
  Random_seed : Z → Random;
  randrange : Random → Z → Z * Random;
  randrange_bound : ∀ g n, (0 < n)%Z → (0 ≤ (randrange g n).1 < n)%Z;
}.

(** [g.randint(a, b)]: an integer of [a..b], [ValueError] on an empty range. *)
Definition randint `{Runtime} (a b : Z) : M Random Z :=
  λ g, if decide (a ≤ b)%Z
       then let '(r, g') := randrange g (b - a + 1) in (inr (a + r)%Z, g')
       else (inl ValueError, g).

End Py.

Import Py.

(** ** Data structures of the reader framework *)

(** Modelled from the spec: [QASetting] and [Answer] of
    [jack.core.data_structures] are declared outside the sources; the reader
    uses the [question] text of a setting and builds answers from a text and
    a score. *)
Record QASetting : Type := { question : string }.

Record Answer (Score : Type) : Type := { text : string; score : Score }.
Arguments Build_Answer {Score} _ _.
Arguments text {Score} _.
Arguments score {Score} _.

(** Modelled from the spec: the tensor ports [Ports.Input.question] and
    [Ports.Target.target_index] of [jack.core], the keys of a batch. *)
Inductive TensorPort : Type :=
  | Ports_Input_question
  | Ports_Target_target_index.

#[global] Instance TensorPort_eq_dec : EqDecision TensorPort.
Proof. solve_decision. Defined.

#[global] Instance TensorPort_countable : Countable TensorPort.
Proof.
  refine (inj_countable'
            (λ p, match p with
                  | Ports_Input_question => false
                  | Ports_Target_target_index => true
                  end)
            (λ b : bool, if b then Ports_Target_target_index
                         else Ports_Input_question) _).
  by intros [].
Defined.

(** The values of a batch before conversion: a list of integers or a list
    of integer rows. *)
Inductive pydata : Type :=
  | IntList (xs : list Z)
  | IntTable (rows : list (list Z)).

Inductive ndarray : Type :=
  | Array1 (xs : list Z)
  | Array2 (rows : list (list Z)).

(** Modelled from the spec: [numpify] of [jack.util.map] is not part of the
    sources. It turns the sequences of a batch into dense arrays (one row
    per triple, one entry per target), keeping keys, order and content. *)
Definition numpify (xs : gmap TensorPort pydata) : gmap TensorPort ndarray :=
  (λ x, match x with
        | IntList l => Array1 l
        | IntTable r => Array2 r
        end) <$> xs.

(** The entries of [shared_resources.config] the reader reads or writes. *)
Inductive cfgval : Type :=
  | CInt (z : Z)
  | CVocab (d : gmap string Z).

Record SharedResources : Type := { config : gmap string cfgval }.

(** [range(v)] on a configuration entry. *)
Definition range_of (v : cfgval) : exn + list nat :=
  match v with
  | CInt k => inr (range k)
  | CVocab _ => inl TypeError
  end.

(** ** KnowledgeGraphEmbeddingInputModule *)
Section InputModule.
Context `{rt : Runtime}.

(** The attributes of the module; those that [setup_from_data] creates are
    absent ([None]) before it has run. *)
Record InputModule : Type := {
  _kbp_rng : Random;
  shared_resources : SharedResources;
  triples : option (list (list string));
  entity_set : option pyset;
  predicate_set : option pyset;
  entity_to_index : option (gmap string Z);
  predicate_to_index : option (gmap string Z);
}.

Definition set_kbp_rng (g : Random) (self : InputModule) : InputModule :=
  {| _kbp_rng := g; shared_resources := shared_resources self;
     triples := triples self; entity_set := entity_set self;
     predicate_set := predicate_set self;
     entity_to_index := entity_to_index self;
     predicate_to_index := predicate_to_index self |}.
Definition set_config (k : string) (v : cfgval) (self : InputModule) : InputModule :=
  {| _kbp_rng := _kbp_rng self;
     shared_resources := {| config := <[k := v]> (config (shared_resources self)) |};
     triples := triples self; entity_set := entity_set self;
     predicate_set := predicate_set self;
     entity_to_index := entity_to_index self;
     predicate_to_index := predicate_to_index self |}.
Definition set_triples (v : list (list string)) (self : InputModule) : InputModule :=
  {| _kbp_rng := _kbp_rng self; shared_resources := shared_resources self;
     triples := Some v; entity_set := entity_set self;
     predicate_set := predicate_set self;
     entity_to_index := entity_to_index self;
     predicate_to_index := predicate_to_index self |}.
Definition set_entity_set (v : pyset) (self : InputModule) : InputModule :=
  {| _kbp_rng := _kbp_rng self; shared_resources := shared_resources self;
     triples := triples self; entity_set := Some v;
     predicate_set := predicate_set self;
     entity_to_index := entity_to_index self;
     predicate_to_index := predicate_to_index self |}.
Definition set_predicate_set (v : pyset) (self : InputModule) : InputModule :=
  {| _kbp_rng := _kbp_rng self; shared_resources := shared_resources self;
     triples := triples self; entity_set := entity_set self;
     predicate_set := Some v;
     entity_to_index := entity_to_index self;
     predicate_to_index := predicate_to_index self |}.
Definition set_entity_to_index (v : gmap string Z) (self : InputModule) : InputModule :=
  {| _kbp_rng := _kbp_rng self; shared_resources := shared_resources self;
     triples := triples self; entity_set := entity_set self;
     predicate_set := predicate_set self;
     entity_to_index := Some v;
     predicate_to_index := predicate_to_index self |}.
Definition set_predicate_to_index (v : gmap string Z) (self : InputModule) : InputModule :=
  {| _kbp_rng := _kbp_rng self; shared_resources := shared_resources self;
     triples := triples self; entity_set := entity_set self;
     predicate_set := predicate_set self;
     entity_to_index := entity_to_index self;
     predicate_to_index := Some v |}.

(** [self.name] *)
Definition getattr {A} (field : InputModule → option A) (name : string)
  : M InputModule A :=
  λ self, match field self with
          | Some v => (inr v, self)
          | None => (inl (AttributeError name), self)
          end.

(** [self.name = v] and [self.shared_resources.config[k] = v] *)
Definition modify (f : InputModule → InputModule) : M InputModule unit :=
  λ self, (inr tt, f self).

(** A call on [self._kbp_rng]. *)
Definition with_rng {A} (c : M Random A) : M InputModule A :=
  λ self, let '(r, g) := c (_kbp_rng self) in (r, set_kbp_rng g self).

Definition __init__ (shared_resources : SharedResources) : InputModule :=
  {| _kbp_rng := Random_seed 123; shared_resources := shared_resources;
     triples := None; entity_set := None; predicate_set := None;
     entity_to_index := None; predicate_to_index := None |}.

Definition subject_of (t : list string) : exn + string :=
  match unpack3 t with inr (s, _, _) => inr s | inl e => inl e end.
Definition predicate_of (t : list string) : exn + string :=
  match unpack3 t with inr (_, p, _) => inr p | inl e => inl e end.
Definition object_of (t : list string) : exn + string :=
  match unpack3 t with inr (_, _, o) => inr o | inl e => inl e end.

(** [{x: index for index, x in enumerate(xs)}] *)
Definition index_dict (xs : list string) : gmap string Z :=
  dict_of_pairs ((λ ix, (ix.2, ix.1)) <$> enumerate xs).

Definition setup_from_data {Score}
    (data : list (QASetting * list (Answer Score))) : M InputModule unit :=
  let* _ := modify (set_triples ((λ x, split (question x.1)) <$> data)) in
  let* ts := getattr triples "triples" in
  let* subjects := lift (set_comp subject_of ts) in
  let* ts := getattr triples "triples" in
  let* objects := lift (set_comp object_of ts) in
  let* _ := modify (set_entity_set (set_union subjects objects)) in
  let* ts := getattr triples "triples" in
  let* predicates := lift (set_comp predicate_of ts) in
  let* _ := modify (set_predicate_set predicates) in
  let* es := getattr entity_set "entity_set" in
  let* _ := modify (set_entity_to_index (index_dict (set_iter es))) in
  let* ps := getattr predicate_set "predicate_set" in
  let* _ := modify (set_predicate_to_index (index_dict (set_iter ps))) in
  let* e2i := getattr entity_to_index "entity_to_index" in
  let* _ := modify (set_config "entity_to_index" (CVocab e2i)) in
  let* p2i := getattr predicate_to_index "predicate_to_index" in
  modify (set_config "predicate_to_index" (CVocab p2i)).

(** The body of the loop of [preprocess] for one question. *)
Definition preprocess_question (triples : list (list Z)) (qa_setting : QASetting)
  : M InputModule (list (list Z)) :=
  let* '(s, p, o) := lift (unpack3 (split (question qa_setting))) in
  let* e2i := getattr entity_to_index "entity_to_index" in
  let* s_idx := lift (dict_getitem e2i s) in
  let* e2i := getattr entity_to_index "entity_to_index" in
  let* o_idx := lift (dict_getitem e2i o) in
  let* p2i := getattr predicate_to_index "predicate_to_index" in
  let* p_idx := lift (dict_getitem p2i p) in
  ret (triples ++ [[s_idx; p_idx; o_idx]]).

Definition preprocess {Score} (questions : list QASetting)
    (answers : option (list (list (Answer Score)))) (is_eval : bool)
  : M InputModule (list (list Z)) :=
  for_ questions preprocess_question [].

(** One round of negative sampling for the positive [(s, p, o)]. *)
Definition corrupt (with_answers : bool) (s p o : Z)
    (acc : list (list Z) * option (list Z)) (_ : nat)
  : M InputModule (list (list Z) * option (list Z)) :=
  let '(triples, target) := acc in
  let* e2i := getattr entity_to_index "entity_to_index" in
  let* random_subject_index := with_rng (randint 0 (Z.of_nat (size e2i) - 1)) in
  let* e2i := getattr entity_to_index "entity_to_index" in
  let* random_object_index := with_rng (randint 0 (Z.of_nat (size e2i) - 1)) in
  let triples := triples ++ [[random_subject_index; p; o]] in
  let triples := triples ++ [[s; p; random_object_index]] in
  if with_answers
  then let* t := lift (local "target" target) in
       ret (triples, Some ((t ++ [0%Z]) ++ [0%Z]))
  else ret (triples, target).

(** The body of the loop over the positives of [create_batch]. *)
Definition sample_negatives (with_answers : bool)
    (acc : list (list Z) * option (list Z)) (i : nat)
  : M InputModule (list (list Z) * option (list Z)) :=
  let* '(s, p, o) := lift (match getitem acc.1 i with
                           | inr row => unpack3 row
                           | inl e => inl e
                           end) in
  let* self := get in
  let* rounds := lift (range_of (dict_get (config (shared_resources self))
                                          "num_negative" (CInt 1))) in
  for_ rounds (corrupt with_answers s p o) acc.

Definition create_batch (triples : list (list Z)) (is_eval with_answers : bool)
  : M InputModule (gmap TensorPort ndarray) :=
  let triples := list_copy triples in
  let target := if with_answers
                then Some (replicate (length triples) 1%Z) else None in
  let* '(triples, target) :=
    (if negb is_eval
     then for_ (seq 0 (length triples)) (sample_negatives with_answers)
               (triples, target)
     else ret (triples, target)) in
  let xy_dict : gmap TensorPort pydata :=
    {[ Ports_Input_question := IntTable triples ]} in
  if with_answers
  then let* t := lift (local "target" target) in
       ret (numpify (<[Ports_Target_target_index := IntList t]> xy_dict))
  else ret (numpify xy_dict).

End InputModule.

(** ** KnowledgeGraphEmbeddingOutputModule *)
Section OutputModule.
Context {Score : Type}.

(** [logits] is indexed by the position in the batch. *)
Definition answer_at (logits : list Score)
    (results : list (Answer Score)) (iq : Z * QASetting)
  : M unit (list (Answer Score)) :=
  let '(index_in_batch, qa_setting) := iq in
  let* score := lift (getitem logits (Z.to_nat index_in_batch)) in
  ret (results ++ [Build_Answer (question qa_setting) score]).

Definition __call__ (inputs : list QASetting) (logits : list Score)
  : M unit (list (Answer Score)) :=
  for_ (enumerate inputs) (answer_at logits) [].

End OutputModule.

(** ** Batch assembly over a store of list objects

    [create_batch] once more, with the lists as the objects they are in
    Python: a list is a location of a store, its items are integers or
    references to other lists, [append] updates the store in place. This is
    the model in which the caller's list and the lists it shares with the
    batch can be told apart. *)
Module Store.

Definition loc : Type := positive.

Inductive val : Type :=
  | VInt (z : Z)
  | VRef (l : loc).

Abbreviation heap := (gmap loc (list val)).

(** [[v1, ..., vn]]: a new list object. *)
Definition new_list (vs : list val) : M heap loc :=
  λ h, let l := fresh (dom h) in (inr l, <[l := vs]> h).

(** The items of the list at [l]. *)
Definition items (l : loc) : M heap (list val) :=
  λ h, match h !! l with
       | Some vs => (inr vs, h)
       | None => (inl TypeError, h)
       end.

(** [l.append(v)] *)
Definition append (l : loc) (v : val) : M heap unit :=
  λ h, match h !! l with
       | Some vs => (inr tt, <[l := vs ++ [v]]> h)
       | None => (inl TypeError, h)
       end.

(** [len(l)] *)
Definition len (l : loc) : M heap nat :=
  let* vs := items l in ret (length vs).

(** [a, b, c = v] *)
Definition unpack3_val (v : val) : M heap (val * val * val) :=
  match v with
  | VRef r => let* vs := items r in lift (unpack3 vs)
  | VInt _ => raise TypeError
  end.

Definition int_of (v : val) : exn + Z :=
  match v with
  | VInt z => inr z
  | VRef _ => inl TypeError
  end.

(** The integers of a flat list, as array conversion reads them. *)
Definition read_ints (l : loc) : M heap (list Z) :=
  let* vs := items l in lift (list_comp int_of vs).

(** The rows of a list of lists. *)
Definition read_table (l : loc) : M heap (list (list Z)) :=
  let* vs := items l in
  for_ vs (λ rows v,
             match v with
             | VRef r => let* row := read_ints r in ret (rows ++ [row])
             | VInt _ => raise TypeError
             end) [].

Section CreateBatch.
Context `{rt : Runtime}.

Definition on_heap {A} (c : M heap A) : M (heap * InputModule) A :=
  λ σ, let '(r, h) := c σ.1 in (r, (h, σ.2)).
Definition on_self {A} (c : M InputModule A) : M (heap * InputModule) A :=
  λ σ, let '(r, self) := c σ.2 in (r, (σ.1, self)).

Definition corrupt (with_answers : bool) (triples : loc) (target : option loc)
    (s p o : val) (_ : unit) (_ : nat) : M (heap * InputModule) unit :=
  let* e2i := on_self (getattr entity_to_index "entity_to_index") in
  let* random_subject_index :=
    on_self (with_rng (randint 0 (Z.of_nat (size e2i) - 1))) in
  let* e2i := on_self (getattr entity_to_index "entity_to_index") in
  let* random_object_index :=
    on_self (with_rng (randint 0 (Z.of_nat (size e2i) - 1))) in
  let* row := on_heap (new_list [VInt random_subject_index; p; o]) in
  let* _ := on_heap (append triples (VRef row)) in
  let* row := on_heap (new_list [s; p; VInt random_object_index]) in
  let* _ := on_heap (append triples (VRef row)) in
  if with_answers
  then let* t := lift (local "target" target) in
       let* _ := on_heap (append t (VInt 0)) in
       on_heap (append t (VInt 0))
  else ret tt.

Definition sample_negatives (with_answers : bool) (triples : loc)
    (target : option loc) (_ : unit) (i : nat) : M (heap * InputModule) unit :=
  let* row := on_heap (let* vs := items triples in lift (getitem vs i)) in
  let* '(s, p, o) := on_heap (unpack3_val row) in
  let* self := on_self get in
  let* rounds := lift (range_of (dict_get (config (shared_resources self))
                                          "num_negative" (CInt 1))) in
  for_ rounds (corrupt with_answers triples target s p o) tt.

(** [triples] is the caller's list; the local name is rebound to the copy. *)
Definition create_batch (triples : loc) (is_eval with_answers : bool)
  : M (heap * InputModule) (gmap TensorPort ndarray) :=
  let* triples := on_heap (let* vs := items triples in new_list vs) in
  let* target :=
    (if with_answers
     then let* n := on_heap (len triples) in
          let* t := on_heap (new_list (replicate n (VInt 1))) in
          ret (Some t)
     else ret None) in
  let* _ :=
    (if negb is_eval
     then let* n := on_heap (len triples) in
          for_ (seq 0 n) (sample_negatives with_answers triples target) tt
     else ret tt) in
  let* question_rows := on_heap (read_table triples) in
  let xy_dict : gmap TensorPort pydata :=
    {[ Ports_Input_question := IntTable question_rows ]} in
  if with_answers
  then let* t := lift (local "target" target) in
       let* target_items := on_heap (read_ints t) in
       ret (numpify (<[Ports_Target_target_index := IntList target_items]> xy_dict))
  else ret (numpify xy_dict).

(** The store holds the table [rows] at [l]: a list of references to
    lists of integers. *)
Definition holds_table (h : heap) (l : loc) (rows : list (list Z)) : Prop :=
  ∃ refs, h !! l = Some (VRef <$> refs)
          ∧ Forall2 (λ r row, h !! r = Some (VInt <$> row)) refs rows.

End CreateBatch.
End Store.

(** ** Specification vocabulary *)

(** A question whose three tokens are all in the vocabulary [(E, P)]. *)
Definition known (E P : gmap string Z) (q : QASetting) : Prop :=
  ∃ s p o, split (question q) = [s; p; o]
           ∧ is_Some (E !! s) ∧ is_Some (P !! p) ∧ is_Some (E !! o).

(** What the loop body of [preprocess] computes for one question under the
    vocabulary [(E, P)]: the subject is looked up first, then the object,
    then the predicate. *)
Definition index_question (E P : gmap string Z) (q : QASetting) : exn + list Z :=
  match unpack3 (split (question q)) with
  | inl e => inl e
  | inr (s, p, o) =>
      match E !! s with
      | None => inl (KeyError s)
      | Some s_idx =>
          match E !! o with
          | None => inl (KeyError o)
          | Some o_idx =>
              match P !! p with
              | None => inl (KeyError p)
              | Some p_idx => inr [s_idx; p_idx; o_idx]
              end
          end
      end
  end.

(** The entity and predicate tokens of a training set. *)
Definition observed_entities {Score}
    (data : list (QASetting * list (Answer Score))) : list string :=
  flat_map (λ x, match split (question x.1) with
                 | [s; _; o] => [s; o]
                 | _ => []
                 end) data.
Definition observed_predicates {Score}
    (data : list (QASetting * list (Answer Score))) : list string :=
  flat_map (λ x, match split (question x.1) with
                 | [_; p; _] => [p]
                 | _ => []
                 end) data.

(** The subject tokens and the object tokens of a training set, each in the
    order of the questions, and the sets [setup_from_data] builds from
    them: the entities as the union of the set of subjects and the set of
    objects, the predicates as one set. *)
Definition observed_subjects {Score}
    (data : list (QASetting * list (Answer Score))) : list string :=
  flat_map (λ x, match split (question x.1) with
                 | [s; _; _] => [s]
                 | _ => []
                 end) data.
Definition observed_objects {Score}
    (data : list (QASetting * list (Answer Score))) : list string :=
  flat_map (λ x, match split (question x.1) with
                 | [_; _; o] => [o]
                 | _ => []
                 end) data.
Definition built_entity_set {Score}
    (data : list (QASetting * list (Answer Score))) : pyset :=
  set_union (set_of_list (observed_subjects data))
            (set_of_list (observed_objects data)).
Definition built_predicate_set {Score}
    (data : list (QASetting * list (Answer Score))) : pyset :=
  set_of_list (observed_predicates data).

(** The inverse table of a token-to-index mapping. *)
Definition index_to_token (m : gmap string Z) : gmap Z string :=
  list_to_map ((λ kv, (kv.2, kv.1)) <$> map_to_list m).

(** [m] maps exactly the tokens of [toks], one to one, onto [0 .. size m - 1]. *)
Definition bijection_onto_range (m : gmap string Z) (toks : list string) : Prop :=
  (∀ tok, tok ∈ toks ↔ is_Some (m !! tok))
  ∧ (∀ tok i, m !! tok = Some i → index_to_token m !! i = Some tok)
  ∧ (∀ i, (∃ tok, m !! tok = Some i) ↔ (0 ≤ i < Z.of_nat (size m))%Z).

(** The negatives of the positive [(s, p, o)] for the drawn pairs of
    entity indices: per pair, the subject-corrupted triple and then the
    object-corrupted one. *)
Definition negatives_of (s p o : Z) (draws : list (Z * Z)) : list (list Z) :=
  flat_map (λ d, [[d.1; p; o]; [s; p; d.2]]) draws.

(** The answer for a question and its logit. *)
Definition answer_of {Score} (q : QASetting) (l : Score) : Answer Score :=
  Build_Answer (question q) l.

(** The local [target] of [create_batch]: bound when answers are asked for. *)
Definition targets (with_answers : bool) (t : list Z) : option (list Z) :=
  if with_answers then Some t else None.

(** The batch [create_batch] returns for the rows [rows] and targets [t]. *)
Definition batch (with_answers : bool) (rows : list (list Z)) (t : list Z)
  : gmap TensorPort ndarray :=
  if with_answers
  then numpify (<[Ports_Target_target_index := IntList t]>
                  {[ Ports_Input_question := IntTable rows ]})
  else numpify {[ Ports_Input_question := IntTable rows ]}.

(** The draws of one positive are entity indices of the vocabulary [E]. *)
Definition in_range (E : gmap string Z) (d : Z * Z) : Prop :=
  (0 ≤ d.1 < Z.of_nat (size E))%Z ∧ (0 ≤ d.2 < Z.of_nat (size E))%Z.

(** [negs] are the negatives of the positive [row] after [k] rounds. *)
Definition negatives_for (E : gmap string Z) (k : Z)
    (row : list Z) (negs : list (list Z)) : Prop :=
  ∃ s p o draws,
    row = [s; p; o] ∧ length draws = Z.to_nat k
    ∧ negs = negatives_of s p o draws ∧ Forall (in_range E) draws.

(** The loop state of [create_batch] is aligned with the positives
    [triples]: the rows are the positives followed by the negatives made so
    far, and the targets, when bound, are a 1 per positive followed by a 0
    per negative. *)
Definition aligned (with_answers : bool) (triples : list (list Z))
    (acc : list (list Z) * option (list Z)) : Prop :=
  ∃ extra, acc.1 = triples ++ extra
           ∧ acc.2 = targets with_answers
                       (replicate (length triples) 1%Z
                        ++ replicate (length extra) 0%Z).

(** [c] keeps the property [J] of the state, whether it returns or raises. *)
Definition keeps {S A} (J : S → Prop) (c : M S A) : Prop :=
  ∀ σ, J σ → J (c σ).2.

(** Started in a state with [J], [c] only returns values with [Q]. *)
Definition yields {S A} (J : S → Prop) (c : M S A) (Q : A → Prop) : Prop :=
  ∀ σ a σ', J σ → c σ = (inr a, σ') → Q a.

Section ModuleVocabulary.
Context `{rt : Runtime}.

(** What negative sampling leaves untouched in the module. *)
Definition frame (self self' : InputModule) : Prop :=
  entity_to_index self' = entity_to_index self
  ∧ predicate_to_index self' = predicate_to_index self
  ∧ shared_resources self' = shared_resources self.

(** The lists of [h0] are in the store, with the items they have in [h0]. *)
Definition extends (h0 : Store.heap) (σ : Store.heap * InputModule) : Prop :=
  h0 ⊆ σ.1.

(** The store holds the loop state of [create_batch]: the copy at [c] lists
    the rows [acc], each a list object of its own, and the targets, when
    bound, are the list at [tl]. *)
Definition represents (h : Store.heap) (c : Store.loc)
    (tl : option Store.loc) (acc : list (list Z)) (tg : option (list Z)) : Prop :=
  ∃ refs, h !! c = Some (Store.VRef <$> refs)
          ∧ Forall2 (λ r row, h !! r = Some (Store.VInt <$> row)) refs acc
          ∧ (c ∉ refs)
          ∧ match tl, tg with
            | Some t, Some tv =>
                h !! t = Some (Store.VInt <$> tv) ∧ t ≠ c ∧ t ∉ refs
            | None, None => True
            | _, _ => False
            end.

(** The outcome [os] of a loop over the store matches the outcome [ov] of
    the loop over values: the same exception, or the represented state;
    the module ends in the same state. *)
Definition simulates (c : Store.loc) (tl : option Store.loc)
    (ov : (exn + (list (list Z) * option (list Z))) * InputModule)
    (os : (exn + unit) * (Store.heap * InputModule)) : Prop :=
  os.2.2 = ov.2
  ∧ match ov.1 with
    | inl e => os.1 = inl e
    | inr a => os.1 = inr tt ∧ represents os.2.1 c tl a.1 a.2
    end.

End ModuleVocabulary.

(** ** Runs of the interpreter and a small knowledge base

    Two runtimes that differ in the order in which they iterate a set, as
    two processes with different hash salts do; a third that iterates a set
    in the order in which its elements were first added, so that sets with
    the same elements are iterated differently when they were built
    differently; each with a linear congruential generator for
    [random.Random]; and the objects the examples use. *)
Module Example.

Definition lcg (g n : Z) : Z * Z :=
  ((g `mod` n)%Z, ((g * 1103515245 + 12345) `mod` 2147483648)%Z).

Definition runtime_a : Runtime :=
  {| set_iter := λ X, elements (members X);
     set_iter_perm := λ X, reflexivity (elements (members X));
     Random := Z;
     Random_seed := λ seed, seed;
     randrange := lcg;
     randrange_bound := λ g n Hn, Z.mod_pos_bound g n Hn |}.

Definition runtime_b : Runtime :=
  {| set_iter := λ X, reverse (elements (members X));
     set_iter_perm := λ X, reverse_Permutation (elements (members X));
     Random := Z;
     Random_seed := λ seed, seed;
     randrange := lcg;
     randrange_bound := λ g n Hn, Z.mod_pos_bound g n Hn |}.

Definition runtime_c : Runtime.
Proof.
  refine {| set_iter := λ X, reverse (remove_dups (reverse (insertions X)));
            set_iter_perm := _;
            Random := Z;
            Random_seed := λ seed, seed;
            randrange := lcg;
            randrange_bound := λ g n Hn, Z.mod_pos_bound g n Hn |}.
  intros X. apply NoDup_Permutation.
  - rewrite reverse_Permutation. apply NoDup_remove_dups.
  - apply NoDup_elements.
  - intros x.
    rewrite elem_of_reverse, elem_of_remove_dups, elem_of_reverse,
      elem_of_elements.
    induction X as [xs|a IHa b IHb]; cbn [insertions members].
    + symmetry. apply elem_of_list_to_set.
    + rewrite elem_of_app, elem_of_union. tauto.
Defined.

Definition facts : list (QASetting * list (Answer Z)) :=
  [({| question := "a r b" |}, []); ({| question := "c r d" |}, [])].

Definition entities : gmap string Z := index_dict ["a"; "b"; "c"; "d"].
Definition predicates : gmap string Z := index_dict ["r"].

(** A module of [runtime_a] with the vocabulary of [facts]. *)
Definition reader : InputModule (rt := runtime_a) :=
  {| _kbp_rng := Random_seed 123;
     shared_resources := {| config := {[ "num_negative" := CInt 2 ]} |};
     triples := None; entity_set := None; predicate_set := None;
     entity_to_index := Some entities;
     predicate_to_index := Some predicates |}.

Definition positives : list (list Z) := [[0; 0; 1]; [2; 0; 3]]%Z.

(** A store with the list of [positives] at location 1. *)
Definition store : Store.heap :=
  {[ 1%positive := [Store.VRef 2%positive; Store.VRef 3%positive];
     2%positive := Store.VInt <$> [0; 0; 1]%Z;
     3%positive := Store.VInt <$> [2; 0; 3]%Z ]}.

End Example.

(** ** The ports of the input module and further vocabulary *)
Section ModulePorts.
Context `{rt : Runtime}.

(** The properties [output_ports] and [training_ports] of the input module. *)
Definition output_ports (self : InputModule) : list TensorPort :=
  [Ports_Input_question].

Definition training_ports (self : InputModule) : list TensorPort :=
  [Ports_Target_target_index].

(** The random source after [n] draws below [m]. *)
Definition advance (n : nat) (m : Z) (g : Random) : Random :=
  Nat.iter n (λ g', (randrange g' m).2) g.

(** The module after [setup_from_data] has run to its end on [data]. *)
Definition vocabulary_state {Score}
    (data : list (QASetting * list (Answer Score))) (self : InputModule)
  : InputModule :=
  let E := index_dict (set_iter (built_entity_set data)) in
  let P := index_dict (set_iter (built_predicate_set data)) in
  set_config "predicate_to_index" (CVocab P)
    (set_config "entity_to_index" (CVocab E)
       (set_predicate_to_index P
          (set_entity_to_index E
             (set_predicate_set (built_predicate_set data)
                (set_entity_set (built_entity_set data)
                   (set_triples ((λ x, split (question x.1)) <$> data)
                      self)))))).

End ModulePorts.

(** An indexed triple that is valid for the vocabulary [(E, P)]: three
    indices, the entities below [size E], the predicate below [size P]. *)
Definition valid_triple (E P : gmap string Z) (row : list Z) : Prop :=
  ∃ s p o, row = [s; p; o]
           ∧ (0 ≤ s < Z.of_nat (size E))%Z
           ∧ (0 ≤ p < Z.of_nat (size P))%Z
           ∧ (0 ≤ o < Z.of_nat (size E))%Z.

(** The negatives of one positive when every draw is the index 0. *)
Definition zero_negatives (k : Z) (row : list Z) : list (list Z) :=
  match row with
  | [s; p; o] => concat (replicate (Z.to_nat k) [[0; p; o]; [s; p; 0]]%Z)
  | _ => []
  end.

(** ** The state and exception monad *)
Section Monad.
Context {S : Type}.

Lemma bind_inr {A B} (c : M S A) (k : A → M S B) σ a σ' :
  c σ = (inr a, σ') → bind c k σ = k a σ'.
Proof. unfold bind. by intros ->. Qed.

Lemma bind_inl {A B} (c : M S A) (k : A → M S B) σ e σ' :
  c σ = (inl e, σ') → bind c k σ = (inl e, σ').
Proof. unfold bind. by intros ->. Qed.

Lemma bind_inv {A B} (c : M S A) (k : A → M S B) σ b σ2 :
  bind c k σ = (inr b, σ2) →
  ∃ a σ1, c σ = (inr a, σ1) ∧ k a σ1 = (inr b, σ2).
Proof.
  unfold bind. destruct (c σ) as [[e|a] σ1]; [done|]. intros Hk. eauto.
Qed.

Lemma for_app {A B} (l1 l2 : list A) (body : B → A → M S B) acc σ :
  for_ (l1 ++ l2) body acc σ =
  match for_ l1 body acc σ with
  | (inr acc', σ') => for_ l2 body acc' σ'
  | (inl e, σ') => (inl e, σ')
  end.
Proof.
  revert acc σ. induction l1 as [|x l1 IH]; intros acc σ; [done|].
  simpl. unfold bind. destruct (body acc x σ) as [[e|acc'] σ']; [done|].
  apply IH.
Qed.

(** A property of the loop state that every successful round keeps holds
    when the loop ends normally. *)
Lemma for_invariant {A B} (I : B → S → Prop) (l : list A)
    (body : B → A → M S B) acc σ acc' σ' :
  I acc σ →
  (∀ a x σ1 a2 σ2, I a σ1 → body a x σ1 = (inr a2, σ2) → I a2 σ2) →
  for_ l body acc σ = (inr acc', σ') → I acc' σ'.
Proof.
  intros HI Hstep. revert acc σ HI.
  induction l as [|x l IH]; intros acc σ HI; simpl.
  - unfold ret. by intros [= <- <-].
  - intros (a1 & σ1 & Hb & Hrest)%bind_inv. eauto.
Qed.

(** A property of the state alone that every round keeps, whether it ends
    normally or raises, holds when the loop has ended. *)
Lemma for_state_invariant {A B} (I : S → Prop) (l : list A)
    (body : B → A → M S B) acc σ :
  I σ →
  (∀ a x σ1, I σ1 → I (body a x σ1).2) →
  I (for_ l body acc σ).2.
Proof.
  intros HI Hstep. revert acc σ HI.
  induction l as [|x l IH]; intros acc σ HI; simpl; [done|].
  unfold bind. specialize (Hstep acc x σ HI).
  destruct (body acc x σ) as [[e|a1] σ1]; simpl in *; [done|]. by apply IH.
Qed.

End Monad.

(** ** Preprocessing *)
Section Preprocess.
Context `{rt : Runtime} {Score : Type}.
Implicit Types (self : InputModule) (E P : gmap string Z).

Lemma preprocess_question_eq self E P acc q :
  entity_to_index self = Some E →
  predicate_to_index self = Some P →
  preprocess_question acc q self =
  (match index_question E P q with
   | inr t => inr (acc ++ [t])
   | inl e => inl e
   end, self).
Proof.
  intros HE HP. unfold preprocess_question, index_question, bind, lift, getattr, ret.
  destruct (unpack3 (split (question q))) as [e|[[s p] o]]; [done|].
  rewrite HE. unfold dict_getitem.
  destruct (E !! s) as [si|]; [|done].
  rewrite HE. destruct (E !! o) as [oi|]; [|done].
  rewrite HP. by destruct (P !! p).
Qed.

Lemma preprocess_loop self E P qs acc :
  entity_to_index self = Some E →
  predicate_to_index self = Some P →
  for_ qs preprocess_question acc self =
  (match list_comp (index_question E P) qs with
   | inr ts => inr (acc ++ ts)
   | inl e => inl e
   end, self).
Proof.
  intros HE HP. revert acc. induction qs as [|q qs IH]; intros acc; simpl.
  - by rewrite app_nil_r.
  - unfold bind. rewrite (preprocess_question_eq _ E P) by done.
    destruct (index_question E P q) as [e|t]; [done|].
    rewrite IH. destruct (list_comp _ qs); [done|].
    by rewrite <- app_assoc.
Qed.

Lemma index_question_known E P q :
  known E P q →
  ∃ s p o si pi oi,
    split (question q) = [s; p; o] ∧ E !! s = Some si ∧ P !! p = Some pi
    ∧ E !! o = Some oi ∧ index_question E P q = inr [si; pi; oi].
Proof.
  intros (s & p & o & Hsplit & [si Hs] & [pi Hp] & [oi Ho]).
  exists s, p, o, si, pi, oi. unfold index_question.
  rewrite Hsplit. simpl. by rewrite Hs, Ho, Hp.
Qed.

Lemma list_comp_known E P qs :
  Forall (known E P) qs →
  ∃ out, list_comp (index_question E P) qs = inr out
         ∧ Forall2 (λ q t, index_question E P q = inr t) qs out.
Proof.
  induction 1 as [|q qs Hq _ (out & Hout & Hall)].
  - exists []. by split; [|constructor].
  - destruct (index_question_known E P q Hq) as (s&p&o&si&pi&oi&_&_&_&_&Hi).
    exists ([si; pi; oi] :: out). simpl. rewrite Hi, Hout.
    split; [done|]. by constructor.
Qed.

(** C4: on questions whose tokens are all in the frozen vocabulary,
    [preprocess] returns one indexed triple per question, in order, the
    triple of question [i] with tokens [(s, p, o)] being
    [(entity_to_index[s], predicate_to_index[p], entity_to_index[o])]; it
    leaves the module as it was, and any call with the same questions on a
    module with the same vocabulary returns the same list. *)
Theorem preprocess_indexes_known_questions self E P
    (questions : list QASetting)
    (answers : option (list (list (Answer Score)))) (is_eval : bool) :
  entity_to_index self = Some E →
  predicate_to_index self = Some P →
  Forall (known E P) questions →
  ∃ out : list (list Z),
    preprocess questions answers is_eval self = (inr out, self)
    ∧ length out = length questions
    ∧ (∀ i q, questions !! i = Some q →
         ∃ s p o si pi oi,
           split (question q) = [s; p; o]
           ∧ E !! s = Some si ∧ P !! p = Some pi ∧ E !! o = Some oi
           ∧ out !! i = Some [si; pi; oi])
    ∧ (∀ self' (answers' : option (list (list (Answer Score)))) is_eval',
         entity_to_index self' = Some E →
         predicate_to_index self' = Some P →
         preprocess questions answers' is_eval' self' = (inr out, self')).
Proof.
  intros HE HP Hknown.
  destruct (list_comp_known E P questions Hknown) as (out & Hout & Hall).
  exists out. split; [|split; [|split]].
  - unfold preprocess. rewrite (preprocess_loop _ E P) by done. by rewrite Hout.
  - symmetry. by eapply Forall2_length.
  - intros i q Hq.
    destruct (Forall2_lookup_l _ _ _ _ _ Hall Hq) as (t & Ht & Hi).
    rewrite Forall_lookup in Hknown. specialize (Hknown i q Hq).
    destruct (index_question_known E P q Hknown)
      as (s&p&o&si&pi&oi&Hsplit&Hs&Hp&Ho&Hi').
    exists s, p, o, si, pi, oi. repeat split; try done. congruence.
  - intros self' answers' is_eval' HE' HP'.
    unfold preprocess. rewrite (preprocess_loop _ E P) by done. by rewrite Hout.
Qed.

Lemma index_question_unknown E P q s p o :
  split (question q) = [s; p; o] →
  E !! s = None ∨ P !! p = None ∨ E !! o = None →
  ∃ tok, index_question E P q = inl (KeyError tok)
         ∧ ((tok = s ∨ tok = o) ∧ E !! tok = None
            ∨ tok = p ∧ P !! tok = None).
Proof.
  intros Hsplit Habsent. unfold index_question. rewrite Hsplit. simpl.
  destruct (E !! s) as [si|] eqn:Hs;
    [|exists s; split; [done|left; split; [by left|done]]].
  destruct (E !! o) as [oi|] eqn:Ho;
    [|exists o; split; [done|left; split; [by right|done]]].
  destruct (P !! p) as [pi|] eqn:Hp;
    [|exists p; split; [done|by right]].
  by destruct Habsent as [?|[?|?]].
Qed.

Lemma preprocess_app (before after : list QASetting)
    (answers : option (list (list (Answer Score)))) is_eval self :
  preprocess (before ++ after) answers is_eval self =
  match preprocess before answers is_eval self with
  | (inr out, self') => for_ after preprocess_question out self'
  | (inl e, self') => (inl e, self')
  end.
Proof. unfold preprocess. apply for_app. Qed.

(** C6: when the questions before [q] are processed without error and a
    token of [q] is absent from the frozen vocabulary, [preprocess] raises
    the [KeyError] of the failing lookup: of an absent subject or object in
    [entity_to_index], or of an absent predicate in [predicate_to_index].
    Nothing is returned in place of the missing index and the module, its
    vocabulary included, is as before the call. *)
Theorem preprocess_unknown_token_raises self E P
    (before after : list QASetting) (q : QASetting) (s p o : string)
    (answers : option (list (list (Answer Score)))) (is_eval : bool)
    (out : list (list Z)) :
  entity_to_index self = Some E →
  predicate_to_index self = Some P →
  (preprocess before answers is_eval self).1 = inr out →
  split (question q) = [s; p; o] →
  E !! s = None ∨ P !! p = None ∨ E !! o = None →
  ∃ tok,
    preprocess (before ++ q :: after) answers is_eval self
      = (inl (KeyError tok), self)
    ∧ ((tok = s ∨ tok = o) ∧ E !! tok = None
       ∨ tok = p ∧ P !! tok = None).
Proof.
  intros HE HP Hbefore Hsplit Habsent.
  destruct (index_question_unknown E P q s p o Hsplit Habsent) as (tok & Hq & Htok).
  exists tok. split; [|done].
  rewrite preprocess_app. revert Hbefore.
  unfold preprocess. rewrite (preprocess_loop _ E P) by done.
  destruct (list_comp (index_question E P) before) as [e|ts]; [done|].
  simpl. intros _. unfold bind.
  rewrite (preprocess_question_eq _ E P) by done. by rewrite Hq.
Qed.

Lemma unpack3_length {A} (l : list A) :
  length l = 3%nat → ∃ a b c, l = [a; b; c].
Proof. destruct l as [|a [|b [|c [|d l]]]]; try done. eauto. Qed.

Lemma unpack3_malformed {A} (l : list A) :
  length l ≠ 3%nat → unpack3 l = inl ValueError.
Proof. by destruct l as [|a [|b [|c [|d l]]]]. Qed.

Lemma unpack3_raises {A} (l : list A) e :
  unpack3 l = inl e → e = ValueError.
Proof. destruct l as [|a [|b [|c [|d l]]]]; simpl; congruence. Qed.

Lemma preprocess_state (questions : list QASetting)
    (answers : option (list (list (Answer Score)))) is_eval self :
  (preprocess questions answers is_eval self).2 = self.
Proof.
  unfold preprocess.
  apply (for_state_invariant (λ σ, σ = self)); [done|].
  intros acc q σ ->.
  unfold preprocess_question, bind, lift, getattr, ret.
  repeat (case_match; simplify_eq/=); done.
Qed.

Lemma preprocess_question_malformed acc q self :
  length (split (question q)) ≠ 3%nat →
  preprocess_question acc q self = (inl ValueError, self).
Proof.
  intros Hq. unfold preprocess_question, bind, lift.
  by rewrite (unpack3_malformed _ Hq).
Qed.

End Preprocess.

(** ** Vocabulary construction *)
Section Setup.
Context `{rt : Runtime} {Score : Type}.
Implicit Types (self : InputModule) (data : list (QASetting * list (Answer Score))).

Lemma list_comp_malformed (f : list string → exn + string) (ts : list (list string)) :
  (∀ t, length t ≠ 3%nat → f t = inl ValueError) →
  (∀ t e, f t = inl e → e = ValueError) →
  Exists (λ t, length t ≠ 3%nat) ts →
  list_comp f ts = inl ValueError.
Proof.
  intros Hbad Honly. induction 1 as [t ts Ht|t ts _ IH]; simpl.
  - by rewrite Hbad.
  - destruct (f t) as [e|y] eqn:Hf; [by rewrite (Honly _ _ Hf)|].
    by rewrite IH.
Qed.

Lemma subject_of_malformed (t : list string) :
  length t ≠ 3%nat → subject_of t = inl ValueError.
Proof. intros H. unfold subject_of. by rewrite unpack3_malformed. Qed.

Lemma subject_of_raises (t : list string) e :
  subject_of t = inl e → e = ValueError.
Proof.
  unfold subject_of. destruct (unpack3 t) as [e'|[[s p] o]] eqn:Hu; [|done].
  intros [= <-]. by eapply unpack3_raises.
Qed.

Lemma setup_from_data_malformed data self :
  Exists (λ x, length (split (question x.1)) ≠ 3%nat) data →
  setup_from_data data self =
  (inl ValueError, set_triples ((λ x, split (question x.1)) <$> data) self).
Proof.
  intros Hbad. unfold setup_from_data.
  rewrite (bind_inr _ _ _ tt (set_triples ((λ x, split (question x.1)) <$> data) self))
    by done.
  rewrite (bind_inr _ _ _ ((λ x, split (question x.1)) <$> data)
             (set_triples ((λ x, split (question x.1)) <$> data) self)) by done.
  apply bind_inl. unfold lift, set_comp.
  rewrite (list_comp_malformed subject_of); first done.
  - apply subject_of_malformed.
  - apply subject_of_raises.
  - by apply Exists_fmap.
Qed.

(** C7: a question whose text does not split into exactly three tokens is
    rejected. [setup_from_data] raises [ValueError] on any training set that
    contains it and builds no vocabulary from it; [preprocess] never returns
    a result for a list that contains it, and raises [ValueError] at that
    question when the questions before it were processed without error. No
    token is dropped or added to make a triple. *)
Theorem malformed_question_is_rejected self (q : QASetting) :
  length (split (question q)) ≠ 3%nat →
  (∀ (before after : list (QASetting * list (Answer Score)))
     (ans : list (Answer Score)),
     (setup_from_data (before ++ (q, ans) :: after) self).1 = inl ValueError
     ∧ entity_to_index (setup_from_data (before ++ (q, ans) :: after) self).2
       = entity_to_index self
     ∧ predicate_to_index (setup_from_data (before ++ (q, ans) :: after) self).2
       = predicate_to_index self
     ∧ shared_resources (setup_from_data (before ++ (q, ans) :: after) self).2
       = shared_resources self)
  ∧ (∀ (before after : list QASetting)
       (answers : option (list (list (Answer Score)))) (is_eval : bool),
       (∃ e, preprocess (before ++ q :: after) answers is_eval self
             = (inl e, self))
       ∧ (∀ out, (preprocess before answers is_eval self).1 = inr out →
                 preprocess (before ++ q :: after) answers is_eval self
                 = (inl ValueError, self))).
Proof.
  intros Hq. split.
  - intros before after ans.
    rewrite setup_from_data_malformed; [done|].
    apply Exists_app. right. by apply Exists_cons_hd.
  - intros before after answers is_eval.
    rewrite preprocess_app.
    pose proof (preprocess_state before answers is_eval self) as Hst.
    destruct (preprocess before answers is_eval self) as [[e|out'] self'].
    + simpl in Hst. subst self'. split; [by exists e|done].
    + simpl in Hst. subst self'. simpl. unfold bind.
      rewrite (preprocess_question_malformed _ _ _ Hq).
      split; [by exists ValueError|done].
Qed.

End Setup.

(** ** Index dictionaries *)
Section IndexDict.
Implicit Types (xs : list string) (m : gmap string Z).

Lemma index_dict_snoc xs x :
  index_dict (xs ++ [x]) = <[x := Z.of_nat (length xs)]> (index_dict xs).
Proof.
  unfold index_dict, dict_of_pairs, enumerate.
  rewrite imap_app, fmap_app, foldl_app. simpl.
  by rewrite Nat.add_0_r.
Qed.

Lemma index_dict_lookup xs tok i :
  NoDup xs →
  index_dict xs !! tok = Some i ↔ (0 ≤ i)%Z ∧ xs !! Z.to_nat i = Some tok.
Proof.
  induction xs as [|x xs IH] using rev_ind; intros Hnd.
  - unfold index_dict, dict_of_pairs. simpl. rewrite lookup_empty.
    split; [done|]. by intros [_ ?].
  - apply NoDup_app in Hnd as (Hnd & Hx & _).
    rewrite index_dict_snoc.
    destruct (decide (x = tok)) as [->|Hne].
    + rewrite lookup_insert_eq. split.
      * intros [= <-]. split; [lia|].
        rewrite Nat2Z.id. by rewrite list_lookup_middle.
      * intros [Hi Hlook].
        destruct (decide (Z.to_nat i < length xs)%nat) as [Hlt|Hge].
        -- rewrite lookup_app_l in Hlook by done.
           exfalso. apply (Hx tok); [|by left].
           eapply list_elem_of_lookup_2; eauto.
        -- apply lookup_lt_Some in Hlook. rewrite length_app in Hlook.
           simpl in Hlook. f_equal. lia.
    + rewrite lookup_insert_ne by done. rewrite (IH Hnd).
      split; intros [Hi Hlook]; (split; [done|]).
      * rewrite lookup_app_l; [done|]. by eapply lookup_lt_Some.
      * destruct (decide (Z.to_nat i < length xs)%nat) as [Hlt|Hge].
        -- by rewrite lookup_app_l in Hlook.
        -- rewrite lookup_app_r in Hlook by lia.
           destruct (Z.to_nat i - length xs)%nat; simpl in Hlook; [|done].
           congruence.
Qed.

Lemma index_dict_None xs tok : NoDup xs → tok ∉ xs → index_dict xs !! tok = None.
Proof.
  intros Hnd Hnot. destruct (index_dict xs !! tok) as [i|] eqn:Hi; [|done].
  apply index_dict_lookup in Hi as [_ Hi]; [|done].
  exfalso. apply Hnot. by eapply list_elem_of_lookup_2.
Qed.

Lemma index_dict_size xs : NoDup xs → size (index_dict xs) = length xs.
Proof.
  induction xs as [|x xs IH] using rev_ind; intros Hnd.
  - done.
  - apply NoDup_app in Hnd as (Hnd & Hx & _).
    rewrite index_dict_snoc, map_size_insert_None.
    + rewrite IH by done. rewrite length_app. simpl. lia.
    + apply index_dict_None; [done|]. intros Hin. apply (Hx x Hin). by left.
Qed.

Lemma index_to_token_lookup m tok i :
  (∀ k1 k2 v, m !! k1 = Some v → m !! k2 = Some v → k1 = k2) →
  m !! tok = Some i → index_to_token m !! i = Some tok.
Proof.
  intros Hinj Hm. unfold index_to_token.
  apply elem_of_list_to_map_1.
  - rewrite <- list_fmap_compose.
    apply NoDup_fmap_2_strong; [|apply NoDup_map_to_list].
    intros [k1 v1] [k2 v2] H1%elem_of_map_to_list H2%elem_of_map_to_list.
    simpl. intros <-. f_equal. by eapply Hinj.
  - apply list_elem_of_fmap. exists (tok, i). split; [done|].
    by apply elem_of_map_to_list.
Qed.

Lemma index_dict_bijection xs (toks : list string) :
  NoDup xs → (∀ tok, tok ∈ xs ↔ tok ∈ toks) →
  bijection_onto_range (index_dict xs) toks.
Proof.
  intros Hnd Hsame. split; [|split].
  - intros tok. rewrite <- Hsame. split.
    + intros (n & Hn)%list_elem_of_lookup_1. exists (Z.of_nat n).
      apply index_dict_lookup; [done|]. rewrite Nat2Z.id. split; [lia|done].
    + intros [i Hi]. apply index_dict_lookup in Hi as [_ Hi]; [|done].
      by eapply list_elem_of_lookup_2.
  - intros tok i. apply index_to_token_lookup.
    intros k1 k2 v H1 H2.
    apply index_dict_lookup in H1 as [_ H1]; [|done].
    apply index_dict_lookup in H2 as [_ H2]; [|done]. congruence.
  - intros i. rewrite index_dict_size by done. split.
    + intros [tok Hi]. apply index_dict_lookup in Hi as [H0 Hi]; [|done].
      apply lookup_lt_Some in Hi. lia.
    + intros [H0 Hlt].
      destruct (lookup_lt_is_Some_2 xs (Z.to_nat i)) as [tok Htok]; [lia|].
      exists tok. by apply index_dict_lookup.
Qed.

End IndexDict.

(** ** Vocabulary construction on well-formed training sets *)
Section SetupWellFormed.
Context `{rt : Runtime} {Score : Type}.
Implicit Types (self : InputModule) (data : list (QASetting * list (Answer Score))).

Lemma comprehensions_wellformed data :
  Forall (λ x, length (split (question x.1)) = 3%nat) data →
  list_comp subject_of ((λ x, split (question x.1)) <$> data)
  = inr (observed_subjects data)
  ∧ list_comp object_of ((λ x, split (question x.1)) <$> data)
    = inr (observed_objects data)
  ∧ list_comp predicate_of ((λ x, split (question x.1)) <$> data)
    = inr (observed_predicates data).
Proof.
  induction 1 as [|x data Hx _ (Hss & Hos & Hps)].
  - done.
  - destruct (unpack3_length _ Hx) as (s & p & o & Hsplit).
    rewrite fmap_cons. cbn [list_comp].
    assert (subject_of (split (question x.1)) = inr s) as ->
      by (unfold subject_of; by rewrite Hsplit).
    assert (object_of (split (question x.1)) = inr o) as ->
      by (unfold object_of; by rewrite Hsplit).
    assert (predicate_of (split (question x.1)) = inr p) as ->
      by (unfold predicate_of; by rewrite Hsplit).
    rewrite Hss, Hos, Hps.
    assert (observed_subjects (x :: data) = [s] ++ observed_subjects data)
      as -> by (unfold observed_subjects; cbn [flat_map]; by rewrite Hsplit).
    assert (observed_objects (x :: data) = [o] ++ observed_objects data)
      as -> by (unfold observed_objects; cbn [flat_map]; by rewrite Hsplit).
    assert (observed_predicates (x :: data) = [p] ++ observed_predicates data)
      as -> by (unfold observed_predicates; cbn [flat_map]; by rewrite Hsplit).
    done.
Qed.

(** The entity set holds the subject and object tokens, the predicate set
    the predicate tokens. *)
Lemma members_built_entity_set data :
  Forall (λ x, length (split (question x.1)) = 3%nat) data →
  members (built_entity_set data) = list_to_set (observed_entities data).
Proof.
  unfold built_entity_set. cbn [members].
  induction 1 as [|x data Hx _ IH].
  - apply set_eq. intros t. rewrite elem_of_union. cbn. tauto.
  - destruct (unpack3_length _ Hx) as (s & p & o & Hsplit).
    assert (observed_subjects (x :: data) = [s] ++ observed_subjects data)
      as -> by (unfold observed_subjects; cbn [flat_map]; by rewrite Hsplit).
    assert (observed_objects (x :: data) = [o] ++ observed_objects data)
      as -> by (unfold observed_objects; cbn [flat_map]; by rewrite Hsplit).
    assert (observed_entities (x :: data) = [s; o] ++ observed_entities data)
      as -> by (unfold observed_entities; cbn [flat_map]; by rewrite Hsplit).
    cbn [app list_to_set]. rewrite <- IH. apply set_eq. intros t.
    rewrite !elem_of_union. tauto.
Qed.

Lemma members_built_predicate_set data :
  members (built_predicate_set data) = list_to_set (observed_predicates data).
Proof. reflexivity. Qed.

Lemma vocabulary_state_entity_set data self :
  entity_set (vocabulary_state data self) = Some (built_entity_set data).
Proof. reflexivity. Qed.

Lemma vocabulary_state_predicate_set data self :
  predicate_set (vocabulary_state data self) = Some (built_predicate_set data).
Proof. reflexivity. Qed.

Lemma vocabulary_state_entity_to_index data self :
  entity_to_index (vocabulary_state data self)
  = Some (index_dict (set_iter (built_entity_set data))).
Proof. reflexivity. Qed.

Lemma vocabulary_state_predicate_to_index data self :
  predicate_to_index (vocabulary_state data self)
  = Some (index_dict (set_iter (built_predicate_set data))).
Proof. reflexivity. Qed.

Lemma vocabulary_state_config data self :
  config (shared_resources (vocabulary_state data self))
  = <["predicate_to_index" :=
        CVocab (index_dict (set_iter (built_predicate_set data)))]>
      (<["entity_to_index" :=
           CVocab (index_dict (set_iter (built_entity_set data)))]>
         (config (shared_resources self))).
Proof. reflexivity. Qed.

Lemma vocabulary_state_rng data self :
  _kbp_rng (vocabulary_state data self) = _kbp_rng self.
Proof. reflexivity. Qed.

Lemma vocabulary_state_triples data self :
  triples (vocabulary_state data self)
  = Some ((λ x, split (question x.1)) <$> data).
Proof. reflexivity. Qed.

Lemma setup_from_data_wellformed_state data self :
  Forall (λ x, length (split (question x.1)) = 3%nat) data →
  setup_from_data data self = (inr tt, vocabulary_state data self).
Proof.
  intros Hwf.
  destruct (comprehensions_wellformed data Hwf) as (Hss & Hos & Hps).
  unfold setup_from_data, vocabulary_state.
  set (ts := (λ x : QASetting * list (Answer Score), split (question x.1))
             <$> data).
  set (ES := built_entity_set data).
  set (PS := built_predicate_set data).
  set (σ1 := set_triples ts self).
  rewrite (bind_inr _ _ _ tt σ1) by reflexivity.
  rewrite (bind_inr _ _ _ ts σ1) by reflexivity.
  rewrite (bind_inr _ _ _ (set_of_list (observed_subjects data)) σ1)
    by (unfold lift, set_comp, ts; by rewrite Hss).
  rewrite (bind_inr _ _ _ ts σ1) by reflexivity.
  rewrite (bind_inr _ _ _ (set_of_list (observed_objects data)) σ1)
    by (unfold lift, set_comp, ts; by rewrite Hos).
  set (σ2 := set_entity_set ES σ1).
  rewrite (bind_inr _ _ _ tt σ2) by reflexivity.
  rewrite (bind_inr _ _ _ ts σ2) by reflexivity.
  rewrite (bind_inr _ _ _ PS σ2)
    by (unfold lift, set_comp, ts; by rewrite Hps).
  set (σ3 := set_predicate_set PS σ2).
  rewrite (bind_inr _ _ _ tt σ3) by reflexivity.
  rewrite (bind_inr _ _ _ ES σ3) by reflexivity.
  set (σ4 := set_entity_to_index (index_dict (set_iter ES)) σ3).
  rewrite (bind_inr _ _ _ tt σ4) by reflexivity.
  rewrite (bind_inr _ _ _ PS σ4) by reflexivity.
  set (σ5 := set_predicate_to_index (index_dict (set_iter PS)) σ4).
  rewrite (bind_inr _ _ _ tt σ5) by reflexivity.
  rewrite (bind_inr _ _ _ (index_dict (set_iter ES)) σ5) by reflexivity.
  set (σ6 := set_config "entity_to_index" (CVocab (index_dict (set_iter ES))) σ5).
  rewrite (bind_inr _ _ _ tt σ6) by reflexivity.
  rewrite (bind_inr _ _ _ (index_dict (set_iter PS)) σ6) by reflexivity.
  reflexivity.
Qed.

Lemma setup_from_data_wellformed data self :
  Forall (λ x, length (split (question x.1)) = 3%nat) data →
  ∃ self',
    setup_from_data data self = (inr tt, self')
    ∧ entity_to_index self'
      = Some (index_dict (set_iter (built_entity_set data)))
    ∧ predicate_to_index self'
      = Some (index_dict (set_iter (built_predicate_set data)))
    ∧ config (shared_resources self') !! "entity_to_index"
      = CVocab <$> entity_to_index self'
    ∧ config (shared_resources self') !! "predicate_to_index"
      = CVocab <$> predicate_to_index self'
    ∧ _kbp_rng self' = _kbp_rng self.
Proof.
  intros Hwf. exists (vocabulary_state data self).
  split; [by apply setup_from_data_wellformed_state|].
  rewrite vocabulary_state_entity_to_index, vocabulary_state_predicate_to_index,
    vocabulary_state_config, vocabulary_state_rng.
  split; [reflexivity|]. split; [reflexivity|]. split; [|split; [|reflexivity]].
  - rewrite lookup_insert_ne by done. by rewrite lookup_insert_eq.
  - by rewrite lookup_insert_eq.
Qed.

Lemma set_iter_NoDup (X : pyset) : NoDup (set_iter X).
Proof. rewrite set_iter_perm. apply NoDup_elements. Qed.

Lemma elem_of_set_iter (X : pyset) tok : tok ∈ set_iter X ↔ tok ∈ members X.
Proof. rewrite set_iter_perm. apply elem_of_elements. Qed.

(** Whatever the iteration order, enumerating the two sets gives
    bijections from the observed tokens onto initial segments. *)
Lemma built_vocabulary_bijections data :
  Forall (λ x, length (split (question x.1)) = 3%nat) data →
  bijection_onto_range (index_dict (set_iter (built_entity_set data)))
                       (observed_entities data)
  ∧ bijection_onto_range (index_dict (set_iter (built_predicate_set data)))
                         (observed_predicates data).
Proof.
  intros Hwf. split.
  - apply index_dict_bijection; [apply set_iter_NoDup|].
    intros tok. rewrite elem_of_set_iter, members_built_entity_set by done.
    apply elem_of_list_to_set.
  - apply index_dict_bijection; [apply set_iter_NoDup|].
    intros tok. rewrite elem_of_set_iter, members_built_predicate_set.
    apply elem_of_list_to_set.
Qed.

(** C5: on a training set of well-formed questions [setup_from_data]
    completes and leaves two mappings that are bijections onto initial
    segments: [entity_to_index] maps exactly the subject and object tokens
    of the training set, [predicate_to_index] exactly its predicate tokens;
    looking an assigned index up in the inverse table gives the token back,
    and the assigned indices are exactly [0 .. count - 1]. Both mappings are
    published in the shared configuration. *)
Theorem setup_from_data_builds_bijections self data :
  Forall (λ x, length (split (question x.1)) = 3%nat) data →
  ∃ self' E P,
    setup_from_data data self = (inr tt, self')
    ∧ entity_to_index self' = Some E
    ∧ predicate_to_index self' = Some P
    ∧ bijection_onto_range E (observed_entities data)
    ∧ bijection_onto_range P (observed_predicates data)
    ∧ config (shared_resources self') !! "entity_to_index" = Some (CVocab E)
    ∧ config (shared_resources self') !! "predicate_to_index" = Some (CVocab P).
Proof.
  intros Hwf.
  destruct (setup_from_data_wellformed data self Hwf)
    as (self' & Hrun & HE & HP & HcE & HcP & _).
  destruct (built_vocabulary_bijections data Hwf) as [HbE HbP].
  eexists self', _, _. split; [done|]. split; [exact HE|]. split; [exact HP|].
  split; [exact HbE|]. split; [exact HbP|]. split.
  - by rewrite HcE, HE.
  - by rewrite HcP, HP.
Qed.

(** C8, as the code has it: nothing is sorted.  [setup_from_data] builds
    the entity set as the union of the set of subjects and the set of
    objects, and the predicate set from the predicates, each from the
    questions in their order; the index of a token is its position in the
    order in which the runtime iterates that set object.  Under one runtime
    the same training set gives the same assignment, whatever state the
    module was in. *)
Theorem index_assignment_follows_set_order self1 self2 data :
  Forall (λ x, length (split (question x.1)) = 3%nat) data →
  ∃ E P,
    entity_set (setup_from_data data self1).2 = Some (built_entity_set data)
    ∧ entity_set (setup_from_data data self2).2 = Some (built_entity_set data)
    ∧ predicate_set (setup_from_data data self1).2
      = Some (built_predicate_set data)
    ∧ predicate_set (setup_from_data data self2).2
      = Some (built_predicate_set data)
    ∧ entity_to_index (setup_from_data data self1).2 = Some E
    ∧ entity_to_index (setup_from_data data self2).2 = Some E
    ∧ predicate_to_index (setup_from_data data self1).2 = Some P
    ∧ predicate_to_index (setup_from_data data self2).2 = Some P
    ∧ (∀ tok i, E !! tok = Some i ↔
         (0 ≤ i)%Z
         ∧ set_iter (built_entity_set data) !! Z.to_nat i = Some tok)
    ∧ (∀ tok i, P !! tok = Some i ↔
         (0 ≤ i)%Z
         ∧ set_iter (built_predicate_set data) !! Z.to_nat i = Some tok).
Proof.
  intros Hwf.
  rewrite !setup_from_data_wellformed_state by done.
  change ((inr tt, vocabulary_state data self1).2)
    with (vocabulary_state data self1).
  change ((inr tt, vocabulary_state data self2).2)
    with (vocabulary_state data self2).
  eexists _, _.
  rewrite !vocabulary_state_entity_set, !vocabulary_state_predicate_set,
    !vocabulary_state_entity_to_index, !vocabulary_state_predicate_to_index.
  do 8 (split; [reflexivity|]).
  split; intros tok i; apply index_dict_lookup, set_iter_NoDup.
Qed.

End SetupWellFormed.

(** ** Output conversion *)
Section Output.
Context {Score : Type}.
Implicit Types (inputs : list QASetting) (logits : list Score).

Lemma call_loop inputs logits (k : nat) (results : list (Answer Score)) :
  (length inputs ≤ length (drop k logits))%nat →
  for_ (imap (λ i x, (Z.of_nat (k + i), x)) inputs) (answer_at logits) results tt
  = (inr (results ++ zip_with answer_of inputs (drop k logits)), tt).
Proof.
  revert k results. induction inputs as [|q inputs IH]; intros k results Hlen.
  - simpl. by rewrite app_nil_r.
  - destruct (drop k logits) as [|l rest] eqn:Hdrop; [simpl in Hlen; lia|].
    assert (logits !! k = Some l) as Hk.
    { rewrite <- (Nat.add_0_r k), <- lookup_drop. by rewrite Hdrop. }
    assert (drop (S k) logits = rest) as Hrest.
    { rewrite <- (Nat.add_1_r k), <- drop_drop. by rewrite Hdrop. }
    cbn [imap for_]. unfold bind at 1. unfold answer_at at 1.
    unfold bind, lift, getitem, ret.
    rewrite Nat.add_0_r, Nat2Z.id, Hk.
    rewrite (imap_ext _ (λ i x, (Z.of_nat (S k + i), x))).
    + rewrite IH; rewrite Hrest; [|simpl in Hlen; lia].
      simpl. by rewrite <- app_assoc.
    + intros i x _. simpl. do 2 f_equal. lia.
Qed.

(** C9: given as many logits as questions, the output module returns one
    answer per question, in input order; answer [i] carries the text of
    [questions[i]] and [logits[i]] as its score. Nothing is dropped,
    reordered or ranked. *)
Theorem output_module_pairs_questions_with_logits inputs logits :
  length inputs = length logits →
  ∃ answers : list (Answer Score),
    __call__ inputs logits tt = (inr answers, tt)
    ∧ length answers = length inputs
    ∧ answers = zip_with answer_of inputs logits
    ∧ (∀ i q l, inputs !! i = Some q → logits !! i = Some l →
         answers !! i = Some {| text := question q; score := l |}).
Proof.
  intros Hlen. exists (zip_with answer_of inputs logits).
  split; [|split; [|split]]; [| |done|].
  - unfold __call__, enumerate.
    refine (eq_trans (call_loop inputs logits 0 [] _) _); [|done].
    rewrite drop_0. lia.
  - rewrite length_zip_with. lia.
  - intros i q l Hq Hl. rewrite lookup_zip_with, Hq. simpl. by rewrite Hl.
Qed.

End Output.

(** ** Batch assembly *)
Section CreateBatch.
Context `{rt : Runtime}.
Implicit Types (self : InputModule) (E : gmap string Z).
Implicit Types (acc rows : list (list Z)) (t : list Z).

Lemma frame_refl self : frame self self.
Proof. done. Qed.

Lemma frame_trans self1 self2 self3 :
  frame self1 self2 → frame self2 self3 → frame self1 self3.
Proof. intros (?&?&?) (?&?&?). repeat split; congruence. Qed.

Lemma batch_question with_answers rows t :
  batch with_answers rows t !! Ports_Input_question = Some (Array2 rows).
Proof.
  unfold batch, numpify. destruct with_answers; rewrite lookup_fmap.
  - rewrite lookup_insert_ne by done. by rewrite lookup_singleton_eq.
  - by rewrite lookup_singleton_eq.
Qed.

Lemma batch_target with_answers rows t :
  batch with_answers rows t !! Ports_Target_target_index
  = if with_answers then Some (Array1 t) else None.
Proof.
  unfold batch, numpify. destruct with_answers; rewrite lookup_fmap.
  - by rewrite lookup_insert_eq.
  - by rewrite lookup_singleton_ne.
Qed.

Lemma with_rng_randint self (n : Z) :
  (0 < n)%Z →
  ∃ r self', with_rng (randint 0 (n - 1)) self = (inr r, self')
             ∧ (0 ≤ r < n)%Z ∧ frame self self'.
Proof.
  intros Hn. unfold with_rng, randint.
  destruct (decide (0 ≤ n - 1)%Z) as [_|]; [|lia].
  pose proof (randrange_bound (_kbp_rng self) (n - 1 - 0 + 1)) as Hr.
  destruct (randrange (_kbp_rng self) (n - 1 - 0 + 1)) as [r g'].
  simpl in Hr. eexists _, _. split; [reflexivity|]. split; [lia|done].
Qed.

Lemma corrupt_round self E with_answers (s p o : Z) acc t (i : nat) :
  entity_to_index self = Some E → E ≠ ∅ →
  ∃ d self',
    corrupt with_answers s p o (acc, targets with_answers t) i self
    = (inr (acc ++ negatives_of s p o [d],
            targets with_answers (t ++ [0; 0]%Z)), self')
    ∧ in_range E d ∧ frame self self'.
Proof.
  intros HE Hne.
  assert (0 < Z.of_nat (size E))%Z as Hsize.
  { apply map_size_non_empty_iff in Hne. lia. }
  destruct (with_rng_randint self _ Hsize) as (rs & self1 & Hrs & Hrs_range & Hf1).
  assert (entity_to_index self1 = Some E) as HE1 by (destruct Hf1; congruence).
  destruct (with_rng_randint self1 _ Hsize) as (ro & self2 & Hro & Hro_range & Hf2).
  exists (rs, ro), self2. split; [|split; [done|by eapply frame_trans]].
  unfold corrupt.
  rewrite (bind_inr _ _ _ E self) by (unfold getattr; by rewrite HE).
  rewrite (bind_inr _ _ _ rs self1) by done.
  rewrite (bind_inr _ _ _ E self1) by (unfold getattr; by rewrite HE1).
  rewrite (bind_inr _ _ _ ro self2) by done.
  unfold negatives_of. simpl. rewrite <- !app_assoc. simpl.
  destruct with_answers; simpl; [|done].
  unfold bind, lift, ret. simpl. by rewrite <- app_assoc.
Qed.

Lemma corrupt_rounds self E with_answers (s p o : Z) (rounds : list nat) acc t :
  entity_to_index self = Some E → (rounds ≠ [] → E ≠ ∅) →
  ∃ draws self',
    for_ rounds (corrupt with_answers s p o) (acc, targets with_answers t) self
    = (inr (acc ++ negatives_of s p o draws,
            targets with_answers (t ++ replicate (2 * length draws) 0%Z)), self')
    ∧ length draws = length rounds
    ∧ Forall (in_range E) draws ∧ frame self self'.
Proof.
  revert self acc t. induction rounds as [|i rounds IH]; intros self acc t HE Hne.
  - exists [], self. simpl. rewrite !app_nil_r. by repeat split.
  - destruct (corrupt_round self E with_answers s p o acc t i HE)
      as (d & self1 & Hd & Hrange & Hf1); [by apply Hne|].
    assert (entity_to_index self1 = Some E) as HE1 by (destruct Hf1; congruence).
    destruct (IH self1 (acc ++ negatives_of s p o [d]) (t ++ [0; 0]%Z) HE1)
      as (draws & self2 & Hrest & Hlen & Hall & Hf2); [intros _; by apply Hne|].
    exists (d :: draws), self2. split; [|split; [|split]].
    + cbn [for_]. rewrite (bind_inr _ _ _ _ _ Hd), Hrest.
      do 3 f_equal.
      * unfold negatives_of. simpl. by rewrite <- app_assoc.
      * rewrite <- app_assoc. do 2 f_equal.
        replace (2 * length (d :: draws))%nat with (S (S (2 * length draws)))
          by (simpl; lia).
        done.
    + simpl. by rewrite Hlen.
    + by constructor.
    + by eapply frame_trans.
Qed.

Lemma sample_negatives_row self E with_answers (k : Z) acc t (i : nat) (s p o : Z) :
  entity_to_index self = Some E →
  ((0 < k)%Z → E ≠ ∅) →
  dict_get (config (shared_resources self)) "num_negative" (CInt 1) = CInt k →
  acc !! i = Some [s; p; o] →
  ∃ draws self',
    sample_negatives with_answers (acc, targets with_answers t) i self
    = (inr (acc ++ negatives_of s p o draws,
            targets with_answers (t ++ replicate (2 * length draws) 0%Z)), self')
    ∧ length draws = Z.to_nat k
    ∧ Forall (in_range E) draws ∧ frame self self'.
Proof.
  intros HE Hne Hk Hrow.
  destruct (corrupt_rounds self E with_answers s p o (range k) acc t HE)
    as (draws & self' & Hrun & Hlen & Hall & Hf).
  { unfold range. intros Hnil. apply Hne.
    destruct (Z.to_nat k) eqn:Hz; [done|lia]. }
  exists draws, self'. split; [|split; [|done]].
  - unfold sample_negatives. cbn [fst].
    unfold getitem. rewrite Hrow. cbn [unpack3].
    unfold bind at 1. unfold lift at 1.
    unfold bind at 1. unfold get at 1.
    rewrite Hk. unfold bind at 1. unfold lift at 1. cbn [range_of].
    exact Hrun.
  - rewrite Hlen. unfold range. by rewrite length_seq.
Qed.

Lemma negatives_of_length (s p o : Z) draws :
  length (negatives_of s p o draws) = (2 * length draws)%nat.
Proof.
  unfold negatives_of. induction draws as [|d draws IH]; [done|].
  simpl in *. rewrite IH. lia.
Qed.

Lemma sample_loop self E with_answers (k : Z) (pre rest extra : list (list Z)) t :
  entity_to_index self = Some E →
  (rest ≠ [] → E ≠ ∅) →
  dict_get (config (shared_resources self)) "num_negative" (CInt 1) = CInt k →
  Forall (λ row, length row = 3%nat) rest →
  ∃ negs self',
    for_ (seq (length pre) (length rest)) (sample_negatives with_answers)
         (pre ++ rest ++ extra, targets with_answers t) self
    = (inr (pre ++ rest ++ extra ++ concat negs,
            targets with_answers (t ++ replicate (length (concat negs)) 0%Z)),
       self')
    ∧ Forall2 (negatives_for E k) rest negs ∧ frame self self'.
Proof.
  intros HE Hne Hk Hrows. revert self pre extra t HE Hne Hk.
  induction Hrows as [|row rest Hrow _ IH]; intros self pre extra t HE Hne Hk.
  - exists [], self. simpl. rewrite !app_nil_r. by repeat split.
  - destruct (unpack3_length _ Hrow) as (s & p & o & ->).
    assert (E ≠ ∅) as HneE by (by apply Hne).
    destruct (sample_negatives_row self E with_answers k
                (pre ++ ([s; p; o] :: rest) ++ extra) t (length pre) s p o)
      as (draws & self1 & Hstep & Hlen & Hall & Hf1); try done.
    { rewrite <- app_comm_cons. by apply list_lookup_middle. }
    assert (entity_to_index self1 = Some E) as HE1 by (destruct Hf1; congruence).
    assert (dict_get (config (shared_resources self1)) "num_negative" (CInt 1)
            = CInt k) as Hk1.
    { destruct Hf1 as (_ & _ & ->). done. }
    destruct (IH self1 (pre ++ [[s; p; o]])
                (extra ++ negatives_of s p o draws)
                (t ++ replicate (2 * length draws) 0%Z) HE1)
      as (negs & self2 & Hrest & Hnegs & Hf2); [done|done|].
    exists (negatives_of s p o draws :: negs), self2.
    split; [|split].
    + cbn [length seq for_]. rewrite (bind_inr _ _ _ _ _ Hstep).
      rewrite length_app in Hrest. cbn [length] in Hrest.
      rewrite Nat.add_1_r in Hrest.
      replace ((pre ++ ([s; p; o] :: rest) ++ extra) ++ negatives_of s p o draws)
        with ((pre ++ [[s; p; o]]) ++ rest ++ extra ++ negatives_of s p o draws)
        by (by rewrite <- !app_assoc).
      rewrite Hrest. do 3 f_equal.
      * simpl. by rewrite <- !app_assoc.
      * rewrite <- app_assoc, <- replicate_add. do 2 f_equal.
        simpl. rewrite length_app, negatives_of_length. done.
    + constructor; [|done]. by exists s, p, o, draws.
    + by eapply frame_trans.
Qed.

(** The whole of [create_batch] in training mode. *)
Lemma create_batch_training self E (triples : list (list Z)) with_answers (k : Z) :
  entity_to_index self = Some E →
  (triples ≠ [] → E ≠ ∅) →
  dict_get (config (shared_resources self)) "num_negative" (CInt 1) = CInt k →
  Forall (λ row, length row = 3%nat) triples →
  ∃ negs self',
    create_batch triples false with_answers self
    = (inr (batch with_answers (triples ++ concat negs)
              (replicate (length triples) 1%Z
               ++ replicate (length (concat negs)) 0%Z)), self')
    ∧ Forall2 (negatives_for E k) triples negs ∧ frame self self'.
Proof.
  intros HE Hne Hk Hrows.
  destruct (sample_loop self E with_answers k [] triples []
              (replicate (length triples) 1%Z) HE Hne Hk Hrows)
    as (negs & self' & Hloop & Hnegs & Hf).
  exists negs, self'. split; [|done].
  unfold create_batch, list_copy. cbn [negb].
  simpl in Hloop. rewrite app_nil_r in Hloop.
  erewrite bind_inr; [|exact Hloop].
  unfold batch, targets. by destruct with_answers.
Qed.

(** The whole of [create_batch] in evaluation mode. *)
Lemma create_batch_eval self (triples : list (list Z)) with_answers :
  create_batch triples true with_answers self
  = (inr (batch with_answers triples (replicate (length triples) 1%Z)), self).
Proof. unfold create_batch, list_copy, batch. by destruct with_answers. Qed.

Lemma negatives_count E (k : Z) (triples : list (list Z)) negs :
  Forall2 (negatives_for E k) triples negs →
  length (concat negs) = (length triples * (2 * Z.to_nat k))%nat.
Proof.
  induction 1 as [|row ns triples negs (s & p & o & draws & _ & Hlen & -> & _) _ IH].
  - done.
  - simpl. rewrite length_app, negatives_of_length, Hlen, IH. lia.
Qed.

(** C1: in training mode, with [num_negative = k] (1 when the
    configuration has no such entry) and [n] positive triples, the
    "question" array has [n * (1 + 2k)] rows: the positives in input order,
    then for each positive in order the negatives of its [k] rounds, a
    subject-corrupted and an object-corrupted triple per round, each with
    the predicate and the other entity of the positive and with the drawn
    entity an index of the vocabulary. *)
Theorem create_batch_appends_negatives self E (triples : list (list Z))
    (with_answers : bool) (k : Z) :
  entity_to_index self = Some E →
  (triples ≠ [] → E ≠ ∅) →
  Forall (λ row, length row = 3%nat) triples →
  dict_get (config (shared_resources self)) "num_negative" (CInt 1) = CInt k →
  (0 ≤ k)%Z →
  ∃ (negatives : list (list (list Z))) out self',
    create_batch triples false with_answers self = (inr out, self')
    ∧ out !! Ports_Input_question = Some (Array2 (triples ++ concat negatives))
    ∧ Z.of_nat (length (triples ++ concat negatives))
      = (Z.of_nat (length triples) * (1 + 2 * k))%Z
    ∧ Forall2 (λ row negs,
         ∃ s p o (draws : list (Z * Z)),
           row = [s; p; o] ∧ Z.of_nat (length draws) = k
           ∧ negs = flat_map (λ d, [[d.1; p; o]; [s; p; d.2]]) draws
           ∧ Forall (λ d, (0 ≤ d.1 < Z.of_nat (size E))%Z
                          ∧ (0 ≤ d.2 < Z.of_nat (size E))%Z) draws)
        triples negatives.
Proof.
  intros HE Hne Hrows Hk Hk0.
  destruct (create_batch_training self E triples with_answers k HE Hne Hk Hrows)
    as (negs & self' & Hrun & Hnegs & _).
  eexists negs, _, self'. split; [exact Hrun|]. split; [apply batch_question|].
  split.
  - rewrite length_app, (negatives_count E k triples negs Hnegs). lia.
  - eapply Forall2_impl; [exact Hnegs|].
    intros row ns (s & p & o & draws & -> & Hlen & -> & Hall).
    exists s, p, o, draws. repeat split; try done. lia.
Qed.

(** C3: in evaluation mode the "question" array is the list of positives,
    row for row and in input order, whatever the configuration says about
    [num_negative]; nothing is drawn and the module is as before. *)
Theorem create_batch_eval_keeps_positives self (triples : list (list Z))
    (with_answers : bool) :
  Forall (λ row, length row = 3%nat) triples →
  ∃ out rows,
    create_batch triples true with_answers self = (inr out, self)
    ∧ out !! Ports_Input_question = Some (Array2 rows)
    ∧ length rows = length triples
    ∧ rows = triples.
Proof.
  intros _. exists (batch with_answers triples (replicate (length triples) 1%Z)).
  exists triples. split; [apply create_batch_eval|].
  split; [apply batch_question|done].
Qed.

Lemma corrupt_aligned with_answers (triples : list (list Z)) (s p o : Z)
    (acc acc' : list (list Z) * option (list Z)) (i : nat) self self' :
  aligned with_answers triples acc →
  corrupt with_answers s p o acc i self = (inr acc', self') →
  aligned with_answers triples acc'.
Proof.
  intros (extra & Hrows & Htg). destruct acc as [rows tg]. simpl in Hrows, Htg.
  subst rows tg. unfold corrupt. intros H.
  apply bind_inv in H as (e1 & σ1 & _ & H).
  apply bind_inv in H as (rs & σ2 & _ & H).
  apply bind_inv in H as (e2 & σ3 & _ & H).
  apply bind_inv in H as (ro & σ4 & _ & H).
  exists (extra ++ [[rs; p; o]; [s; p; ro]]).
  assert (∀ t : list Z,
            (t ++ replicate (length extra) 0%Z) ++ [0%Z; 0%Z]
            = t ++ replicate (length (extra ++ [[rs; p; o]; [s; p; ro]])) 0%Z)
    as Hzeros.
  { intros t. rewrite <- app_assoc. f_equal.
    rewrite length_app, replicate_add. done. }
  destruct with_answers; cbn [targets] in H.
  - unfold bind, lift, ret in H. cbn [local] in H. injection H as <- <-.
    cbn [fst snd targets]. split.
    + by rewrite <- !app_assoc.
    + f_equal. rewrite <- (app_assoc _ [0%Z] [0%Z]). simpl (_ ++ [0%Z]).
      apply Hzeros.
  - unfold ret in H. injection H as <- <-. cbn [fst snd targets]. split; [|done].
    by rewrite <- !app_assoc.
Qed.

Lemma sample_negatives_aligned with_answers (triples : list (list Z))
    (acc acc' : list (list Z) * option (list Z)) (i : nat) self self' :
  aligned with_answers triples acc →
  sample_negatives with_answers acc i self = (inr acc', self') →
  aligned with_answers triples acc'.
Proof.
  intros Hacc. unfold sample_negatives. intros H.
  apply bind_inv in H as ([[s p] o] & σ1 & _ & H).
  apply bind_inv in H as (σ & σ2 & _ & H).
  apply bind_inv in H as (rounds & σ3 & _ & H).
  eapply (for_invariant (λ a _, aligned with_answers triples a));
    [exact Hacc| |exact H].
  intros a x τ1 a2 τ2 Ha Hstep. by eapply corrupt_aligned.
Qed.

Lemma create_batch_aligned self (triples : list (list Z)) is_eval with_answers
    out self' :
  create_batch triples is_eval with_answers self = (inr out, self') →
  ∃ negatives,
    out = batch with_answers (triples ++ negatives)
            (replicate (length triples) 1%Z
             ++ replicate (length negatives) 0%Z).
Proof.
  unfold create_batch, list_copy. intros H.
  apply bind_inv in H as ([rows tg] & σ1 & Hloop & H).
  assert (aligned with_answers triples (rows, tg)) as (extra & Hrows & Htg).
  { destruct is_eval; cbn [negb] in Hloop.
    - unfold ret in Hloop. injection Hloop as <- <- _. exists [].
      cbn [fst snd length replicate]. by rewrite !app_nil_r.
    - eapply (for_invariant (λ a _, aligned with_answers triples a));
        [| |exact Hloop].
      + exists []. cbn [fst snd length replicate]. by rewrite !app_nil_r.
      + intros a x τ1 a2 τ2 Ha Hstep. by eapply sample_negatives_aligned. }
  cbn [fst snd] in Hrows, Htg. subst rows tg. exists extra.
  unfold batch. destruct with_answers; cbn [targets] in H.
  - unfold bind, lift, ret in H. cbn [local] in H. by injection H as <- _.
  - unfold ret in H. by injection H as <- _.
Qed.

(** C2: a batch has a "target" array exactly when answers are asked for.
    In every batch [create_batch] returns, the "question" rows are the
    positives followed by the synthesized negatives, and the "target"
    array, when present, has one entry per row: 1 at the positions of the
    positives and 0 at those of the negatives. A batch is returned in
    evaluation mode always, and in training mode when the vocabulary is
    built, the rows are triples and the configured count is an integer. *)
Theorem create_batch_target_alignment self (triples : list (list Z))
    (is_eval with_answers : bool) :
  (∀ out self',
     create_batch triples is_eval with_answers self = (inr out, self') →
     (is_Some (out !! Ports_Target_target_index) ↔ with_answers = true)
     ∧ ∃ negatives,
         out !! Ports_Input_question = Some (Array2 (triples ++ negatives))
         ∧ (with_answers = true →
            ∃ target,
              out !! Ports_Target_target_index = Some (Array1 target)
              ∧ length target = length (triples ++ negatives)
              ∧ target = replicate (length triples) 1%Z
                         ++ replicate (length negatives) 0%Z))
  ∧ ((is_eval = false →
      ∃ E k, entity_to_index self = Some E
             ∧ (triples ≠ [] → E ≠ ∅)
             ∧ Forall (λ row, length row = 3%nat) triples
             ∧ dict_get (config (shared_resources self)) "num_negative" (CInt 1)
               = CInt k) →
     ∃ out self', create_batch triples is_eval with_answers self = (inr out, self')).
Proof.
  split.
  - intros out self' Hrun.
    destruct (create_batch_aligned _ _ _ _ _ _ Hrun) as (negatives & ->).
    split.
    + rewrite batch_target. destruct with_answers; [|split; [by intros []|done]].
      split; [done|]. by eexists.
    + exists negatives. split; [apply batch_question|].
      intros ->. eexists. split; [by rewrite batch_target|]. split; [|done].
      rewrite !length_app, !length_replicate. done.
  - destruct is_eval.
    + intros _. eexists _, _. apply create_batch_eval.
    + intros Hpre. destruct (Hpre eq_refl) as (E & k & HE & Hne & Hrows & Hk).
      destruct (create_batch_training self E triples with_answers k HE Hne Hk Hrows)
        as (negs & self' & Hrun & _).
      eexists _, _. exact Hrun.
Qed.

End CreateBatch.

(** ** Batch assembly and the caller's lists *)
Section Frame.
Context {S : Type}.
Implicit Types (J : S → Prop).

Lemma keeps_ret {A} J (a : A) : keeps J (ret a).
Proof. by intros σ. Qed.

Lemma keeps_lift {A} J (r : exn + A) : keeps J (lift r).
Proof. by intros σ. Qed.

Lemma keeps_bind {A B} J (Q : A → Prop) (c : M S A) (k : A → M S B) :
  keeps J c → yields J c Q → (∀ a, Q a → keeps J (k a)) → keeps J (bind c k).
Proof.
  intros Hc HQ Hk σ HJ. unfold bind.
  specialize (Hc σ HJ). specialize (HQ σ).
  destruct (c σ) as [[e|a] σ1]; simpl in *; [done|].
  apply (Hk a); [|done]. by eapply HQ.
Qed.

Lemma keeps_bind' {A B} J (c : M S A) (k : A → M S B) :
  keeps J c → (∀ a, keeps J (k a)) → keeps J (bind c k).
Proof.
  intros Hc Hk. apply (keeps_bind J (λ _, True)); [done| |by intros].
  by intros σ a σ' _ _.
Qed.

Lemma keeps_for {A B} J (l : list A) (body : B → A → M S B) acc :
  (∀ a x, keeps J (body a x)) → keeps J (for_ l body acc).
Proof.
  intros Hbody σ HJ. apply for_state_invariant; [done|].
  intros a x σ1. apply Hbody.
Qed.

End Frame.

Section StoreFrame.
Context `{rt : Runtime}.
Implicit Types (h : Store.heap) (l : Store.loc) (self : InputModule).

Lemma keeps_on_self {A} (h0 : Store.heap) (c : M InputModule A) :
  keeps (extends h0) (Store.on_self c).
Proof.
  intros [h self] HJ. unfold Store.on_self. simpl.
  by destruct (c self) as [r self'].
Qed.

Lemma keeps_new_list (h0 : Store.heap) (vs : list Store.val) :
  keeps (extends h0) (Store.on_heap (Store.new_list vs)).
Proof.
  intros [h self] HJ. unfold extends, Store.on_heap, Store.new_list in *.
  simpl in *. apply insert_subseteq_r; [|done].
  apply not_elem_of_dom. intros Hin.
  apply (is_fresh (dom h)). by eapply (subseteq_dom h0 h).
Qed.

Lemma yields_new_list (h0 : Store.heap) (vs : list Store.val) :
  yields (extends h0) (Store.on_heap (Store.new_list vs)) (λ l, l ∉ dom h0).
Proof.
  intros [h self] l σ' HJ. unfold extends, Store.on_heap, Store.new_list in *.
  simpl in *. intros [= <- _] Hin.
  apply (is_fresh (dom h)). by eapply (subseteq_dom h0 h).
Qed.

Lemma keeps_items {A} (h0 : Store.heap) l (k : list Store.val → M Store.heap A) :
  (∀ vs, keeps (extends h0) (Store.on_heap (k vs))) →
  keeps (extends h0) (Store.on_heap (bind (Store.items l) k)).
Proof.
  intros Hk [h self] HJ. unfold Store.on_heap, bind, Store.items. simpl.
  destruct (h !! l) as [vs|]; [|done].
  specialize (Hk vs (h, self) HJ). unfold Store.on_heap in Hk. by simpl in Hk.
Qed.

Lemma keeps_append (h0 : Store.heap) l (v : Store.val) :
  l ∉ dom h0 → keeps (extends h0) (Store.on_heap (Store.append l v)).
Proof.
  intros Hl [h self] HJ. unfold extends, Store.on_heap, Store.append in *.
  simpl in *. destruct (h !! l) as [vs|]; [|done]. simpl.
  apply insert_subseteq_r; [|done]. by apply not_elem_of_dom.
Qed.

Lemma keeps_pure_read {A} (h0 : Store.heap) (c : M Store.heap A) :
  (∀ h, (c h).2 = h) → keeps (extends h0) (Store.on_heap c).
Proof.
  intros Hc [h self] HJ. unfold extends, Store.on_heap in *. simpl in *.
  specialize (Hc h). destruct (c h) as [r h']. simpl in *. by subst.
Qed.

Lemma items_pure l h : (Store.items l h).2 = h.
Proof. unfold Store.items. by destruct (h !! l). Qed.

Lemma bind_pure {A B} (c : M Store.heap A) (k : A → M Store.heap B) :
  (∀ h, (c h).2 = h) → (∀ a h, (k a h).2 = h) → ∀ h, (bind c k h).2 = h.
Proof.
  intros Hc Hk h. unfold bind. specialize (Hc h).
  destruct (c h) as [[e|a] h1]; simpl in *; subst; [done|]. apply Hk.
Qed.

Lemma for_pure {A B} (l : list A) (body : B → A → M Store.heap B) acc :
  (∀ a x h, (body a x h).2 = h) → ∀ h, (for_ l body acc h).2 = h.
Proof.
  intros Hbody h. apply (for_state_invariant (λ h', h' = h)); [done|].
  intros a x h1 ->. apply Hbody.
Qed.

Lemma read_ints_pure l h : (Store.read_ints l h).2 = h.
Proof.
  unfold Store.read_ints. apply bind_pure; [apply items_pure|]. by intros.
Qed.

Lemma read_table_pure l h : (Store.read_table l h).2 = h.
Proof.
  unfold Store.read_table. apply bind_pure; [apply items_pure|].
  intros vs h'. apply for_pure. intros rows [z|r] h2; [done|].
  apply bind_pure; [apply read_ints_pure|]. by intros.
Qed.

Lemma unpack3_val_pure (v : Store.val) h : (Store.unpack3_val v h).2 = h.
Proof.
  destruct v as [z|r]; [done|]. simpl.
  apply bind_pure; [apply items_pure|]. by intros.
Qed.

Lemma len_pure l h : (Store.len l h).2 = h.
Proof. unfold Store.len. apply bind_pure; [apply items_pure|]. by intros. Qed.

Lemma keeps_corrupt (h0 : Store.heap) with_answers l (target : option Store.loc)
    (s p o : Store.val) (u : unit) (i : nat) :
  l ∉ dom h0 → (∀ t, target = Some t → t ∉ dom h0) →
  keeps (extends h0) (Store.corrupt with_answers l target s p o u i).
Proof.
  intros Hl Ht. unfold Store.corrupt.
  apply keeps_bind'; [apply keeps_on_self|]. intros e1.
  apply keeps_bind'; [apply keeps_on_self|]. intros rs.
  apply keeps_bind'; [apply keeps_on_self|]. intros e2.
  apply keeps_bind'; [apply keeps_on_self|]. intros ro.
  apply keeps_bind'; [apply keeps_new_list|]. intros r1.
  apply keeps_bind'; [by apply keeps_append|]. intros _.
  apply keeps_bind'; [apply keeps_new_list|]. intros r2.
  apply keeps_bind'; [by apply keeps_append|]. intros _.
  destruct with_answers; [|apply keeps_ret].
  apply (keeps_bind _ (λ t, target = Some t)); [apply keeps_lift| |].
  - intros σ t σ' _. unfold lift, local. destruct target; [|done]. congruence.
  - intros t Htarget.
    apply keeps_bind'; [by apply keeps_append, Ht|]. intros _.
    by apply keeps_append, Ht.
Qed.

Lemma keeps_sample_negatives (h0 : Store.heap) with_answers l
    (target : option Store.loc) (u : unit) (i : nat) :
  l ∉ dom h0 → (∀ t, target = Some t → t ∉ dom h0) →
  keeps (extends h0) (Store.sample_negatives with_answers l target u i).
Proof.
  intros Hl Ht. unfold Store.sample_negatives.
  apply keeps_bind'.
  { apply keeps_pure_read. apply bind_pure; [apply items_pure|]. by intros. }
  intros row. apply keeps_bind'.
  { apply keeps_pure_read, unpack3_val_pure. }
  intros [[s p] o].
  apply keeps_bind'; [apply keeps_on_self|]. intros self.
  apply keeps_bind'; [apply keeps_lift|]. intros rounds.
  apply keeps_for. intros a x. by apply keeps_corrupt.
Qed.

Lemma keeps_create_batch (h0 : Store.heap) l is_eval with_answers :
  keeps (extends h0) (Store.create_batch l is_eval with_answers).
Proof.
  unfold Store.create_batch.
  apply (keeps_bind _ (λ c, c ∉ dom h0)).
  { apply keeps_items. intros vs. apply keeps_new_list. }
  { intros [h self] c σ' HJ. unfold Store.on_heap, bind, Store.items. simpl.
    destruct (h !! l) as [vs|]; [|done]. intros Hc.
    by apply (yields_new_list h0 vs (h, self) c σ' HJ). }
  intros c Hc.
  apply (keeps_bind _ (λ target, ∀ t, target = Some t → t ∉ dom h0)).
  { destruct with_answers; [|apply keeps_ret].
    apply keeps_bind'; [apply keeps_pure_read, len_pure|]. intros n.
    apply keeps_bind'; [apply keeps_new_list|]. intros t. apply keeps_ret. }
  { destruct with_answers.
    - intros σ target σ' HJ Hrun.
      apply bind_inv in Hrun as (n & σ1 & Hlen & Hrun).
      apply bind_inv in Hrun as (t & σ2 & Hnew & Hrun).
      unfold ret in Hrun. injection Hrun as <- _.
      intros t' [= <-].
      assert (extends h0 σ1) as HJ1.
      { pose proof (keeps_pure_read h0 (Store.len c) (len_pure c) σ HJ) as H1.
        by rewrite Hlen in H1. }
      by eapply (yields_new_list h0 _ σ1 t σ2 HJ1).
    - intros σ target σ' _. unfold ret. by intros [= <- _] t. }
  intros target Htarget.
  apply keeps_bind'.
  { destruct is_eval; [apply keeps_ret|]. cbn [negb].
    apply keeps_bind'; [apply keeps_pure_read, len_pure|]. intros n.
    apply keeps_for. intros a x. by apply keeps_sample_negatives. }
  intros _.
  apply keeps_bind'; [apply keeps_pure_read, read_table_pure|]. intros rows.
  destruct with_answers; [|apply keeps_ret].
  apply keeps_bind'; [apply keeps_lift|]. intros t.
  apply keeps_bind'; [apply keeps_pure_read, read_ints_pure|]. intros ts.
  apply keeps_ret.
Qed.

(** C10: [create_batch] changes no list the caller can reach. Every list
    object of the store before the call has the same items after it,
    whether the call returns or raises: the list of positives that was
    passed in, with the triples it holds, is as it was. The rows of the
    batch go to a copy made before anything is appended. *)
Theorem create_batch_leaves_caller_lists (h : Store.heap) self
    (triples : Store.loc) (is_eval with_answers : bool) :
  h ⊆ (Store.create_batch triples is_eval with_answers (h, self)).2.1
  ∧ (∀ l items, h !! l = Some items →
       (Store.create_batch triples is_eval with_answers (h, self)).2.1 !! l
       = Some items)
  ∧ (∀ rows, Store.holds_table h triples rows →
       Store.holds_table
         (Store.create_batch triples is_eval with_answers (h, self)).2.1
         triples rows).
Proof.
  assert (h ⊆ (Store.create_batch triples is_eval with_answers (h, self)).2.1)
    as Hsub.
  { apply (keeps_create_batch h triples is_eval with_answers (h, self)).
    by unfold extends. }
  split; [done|]. split.
  - intros l items Hl. by eapply lookup_weaken.
  - intros rows (refs & Hrefs & Hrows). exists refs. split.
    + by eapply lookup_weaken.
    + eapply Forall2_impl; [exact Hrows|]. intros r row Hr. simpl in *.
      by eapply lookup_weaken.
Qed.

End StoreFrame.

(** ** The store model computes the batch of the value model *)
Section StoreRefinement.
Context `{rt : Runtime}.
Implicit Types (h : Store.heap) (c l : Store.loc) (self : InputModule).
Implicit Types (acc rows : list (list Z)).

Lemma Forall2_impl_elem {A B} (P Q : A → B → Prop) (xs : list A) (ys : list B) :
  Forall2 P xs ys → (∀ x y, x ∈ xs → P x y → Q x y) → Forall2 Q xs ys.
Proof.
  induction 1 as [|x y xs ys Hxy _ IH]; intros Himpl; constructor.
  - apply Himpl; [by left|done].
  - apply IH. intros x' y' Hin. apply Himpl. by right.
Qed.

Lemma simulates_bind_self {A} c tl (cmd : M InputModule A)
    (kv : A → M InputModule (list (list Z) * option (list Z)))
    (ks : A → M (Store.heap * InputModule) unit) h self :
  (∀ a self', cmd self = (inr a, self') →
              simulates c tl (kv a self') (ks a (h, self'))) →
  simulates c tl (bind cmd kv self) (bind (Store.on_self cmd) ks (h, self)).
Proof.
  intros Hk. unfold bind, Store.on_self. simpl.
  destruct (cmd self) as [[e|a] self']; [done|]. by apply Hk.
Qed.

Lemma store_add_row h self c tl acc tg (row : list Z) :
  represents h c tl acc tg →
  ∃ h', bind (Store.on_heap (Store.new_list (Store.VInt <$> row)))
             (λ r, Store.on_heap (Store.append c (Store.VRef r)))
             (h, self)
        = (inr tt, (h', self))
        ∧ represents h' c tl (acc ++ [row]) tg.
Proof.
  intros (refs & Hc & Hrows & Hcrefs & Htarget).
  set (r := fresh (dom h)).
  assert (h !! r = None) as Hr by apply not_elem_of_dom, is_fresh.
  assert (r ≠ c) as Hrc by (intros ->; congruence).
  assert (∀ r0, r0 ∈ refs → r0 ≠ r ∧ r0 ≠ c) as Hold.
  { intros r0 Hin. split; [|by intros ->].
    apply list_elem_of_lookup_1 in Hin as (i & Hi).
    destruct (Forall2_lookup_l _ _ _ _ _ Hrows Hi) as (row0 & _ & Hrow0).
    intros ->. congruence. }
  exists (<[c := (Store.VRef <$> refs) ++ [Store.VRef r]]>
            (<[r := Store.VInt <$> row]> h)).
  split.
  - unfold bind, Store.on_heap, Store.new_list, Store.append. simpl.
    fold r. rewrite lookup_insert_ne by done. by rewrite Hc.
  - exists (refs ++ [r]). split; [|split; [|split]].
    + rewrite lookup_insert_eq. by rewrite fmap_app.
    + apply Forall2_app.
      * eapply Forall2_impl_elem; [exact Hrows|].
        intros r0 row0 Hin Hrow0. destruct (Hold r0 Hin) as [? ?].
        by rewrite !lookup_insert_ne.
      * constructor; [|constructor].
        rewrite lookup_insert_ne by done. by rewrite lookup_insert_eq.
    + rewrite elem_of_app, list_elem_of_singleton. intros [?|?]; [done|].
      by apply Hrc.
    + destruct tl as [t|], tg as [tv|]; try done.
      destruct Htarget as (Ht & Htc & Htrefs).
      assert (t ≠ r) as Htr by (intros ->; congruence).
      split; [|split; [done|]].
      * by rewrite !lookup_insert_ne.
      * rewrite elem_of_app, list_elem_of_singleton. by intros [?|?].
Qed.

Lemma store_add_target h self c (t : Store.loc) acc (tv : list Z) (z : Z) :
  represents h c (Some t) acc (Some tv) →
  ∃ h', Store.on_heap (Store.append t (Store.VInt z)) (h, self)
        = (inr tt, (h', self))
        ∧ represents h' c (Some t) acc (Some (tv ++ [z])).
Proof.
  intros (refs & Hc & Hrows & Hcrefs & Ht & Htc & Htrefs).
  exists (<[t := (Store.VInt <$> tv) ++ [Store.VInt z]]> h). split.
  - unfold Store.on_heap, Store.append. simpl. by rewrite Ht.
  - exists refs. split; [|split; [|split; [done|]]].
    + by rewrite lookup_insert_ne.
    + eapply Forall2_impl_elem; [exact Hrows|].
      intros r0 row0 Hin Hrow0. rewrite lookup_insert_ne; [done|].
      by intros ->.
    + split; [|done]. rewrite lookup_insert_eq. by rewrite fmap_app.
Qed.

Lemma store_corrupt_simulates h self c tl acc tg with_answers (s p o : Z)
    (u : unit) (i : nat) :
  represents h c tl acc tg →
  simulates c tl
    (corrupt with_answers s p o (acc, tg) i self)
    (Store.corrupt with_answers c tl (Store.VInt s) (Store.VInt p)
       (Store.VInt o) u i (h, self)).
Proof.
  intros Hrep. unfold corrupt, Store.corrupt.
  apply simulates_bind_self. intros E1 self1 _.
  apply simulates_bind_self. intros rs self2 _.
  apply simulates_bind_self. intros E2 self3 _.
  apply simulates_bind_self. intros ro self4 _.
  destruct (store_add_row h self4 c tl acc tg [rs; p; o] Hrep)
    as (h1 & Hrun1 & Hrep1).
  destruct (store_add_row h1 self4 c tl _ tg [s; p; ro] Hrep1)
    as (h2 & Hrun2 & Hrep2).
  apply bind_inv in Hrun1 as (r1 & σ1 & Hnew1 & Happ1).
  apply bind_inv in Hrun2 as (r2 & σ2 & Hnew2 & Happ2).
  rewrite (bind_inr _ _ _ _ _ Hnew1), (bind_inr _ _ _ _ _ Happ1).
  rewrite (bind_inr _ _ _ _ _ Hnew2), (bind_inr _ _ _ _ _ Happ2).
  destruct with_answers; [|by split].
  destruct tl as [t|], tg as [tv|].
  2, 3: by destruct Hrep2 as (? & _ & _ & _ & ?).
  2: by split.
  destruct (store_add_target h2 self4 c t _ tv 0%Z Hrep2) as (h3 & Hrun3 & Hrep3).
  destruct (store_add_target h3 self4 c t _ _ 0%Z Hrep3) as (h4 & Hrun4 & Hrep4).
  unfold bind at 1, lift at 1. cbn [local].
  unfold bind at 1, lift at 1. cbn [local].
  rewrite (bind_inr _ _ _ _ _ Hrun3), Hrun4. by split.
Qed.

Lemma for_simulates {A} c tl (xs : list A)
    (bodyv : list (list Z) * option (list Z) → A
             → M InputModule (list (list Z) * option (list Z)))
    (bodys : unit → A → M (Store.heap * InputModule) unit) :
  (∀ acc tg x u h self, represents h c tl acc tg →
     simulates c tl (bodyv (acc, tg) x self) (bodys u x (h, self))) →
  ∀ acc tg h self, represents h c tl acc tg →
    simulates c tl (for_ xs bodyv (acc, tg) self) (for_ xs bodys tt (h, self)).
Proof.
  intros Hbody. induction xs as [|x xs IH]; intros acc tg h self Hrep.
  - by split.
  - cbn [for_]. unfold bind.
    specialize (Hbody acc tg x tt h self Hrep).
    destruct (bodyv (acc, tg) x self) as [[e|[acc' tg']] self'],
             (bodys tt x (h, self)) as [[e'|[]] [h' self'']];
      destruct Hbody as [Hself Hout]; simpl in Hself, Hout; subst self''.
    + injection Hout as ->. by split.
    + done.
    + by destruct Hout.
    + destruct Hout as [_ Hrep']. by apply IH.
Qed.

Lemma unpack3_fmap {A B} (f : A → B) (xs : list A) :
  unpack3 (f <$> xs)
  = match unpack3 xs with
    | inr (a, b, c) => inr (f a, f b, f c)
    | inl e => inl e
    end.
Proof. by destruct xs as [|a [|b [|c [|d xs]]]]. Qed.

Lemma store_sample_simulates h self c tl acc tg with_answers (u : unit) (i : nat) :
  represents h c tl acc tg →
  simulates c tl
    (sample_negatives with_answers (acc, tg) i self)
    (Store.sample_negatives with_answers c tl u i (h, self)).
Proof.
  intros Hrep. pose proof Hrep as (refs & Hc & Hrows & _).
  unfold sample_negatives, Store.sample_negatives. cbn [fst].
  assert (Store.on_heap (let* vs := Store.items c in lift (getitem vs i)) (h, self)
          = (match refs !! i with
             | Some r => inr (Store.VRef r)
             | None => inl IndexError
             end, (h, self))) as Hget.
  { unfold Store.on_heap, bind, Store.items, lift, getitem. simpl.
    rewrite Hc, list_lookup_fmap. by destruct (refs !! i). }
  unfold getitem.
  destruct (acc !! i) as [row|] eqn:Hrow.
  - destruct (Forall2_lookup_r _ _ _ _ _ Hrows Hrow) as (r & Hr & Hitems).
    rewrite Hr in Hget. rewrite (bind_inr _ _ _ _ _ Hget).
    assert (Store.on_heap (Store.unpack3_val (Store.VRef r)) (h, self)
            = (match unpack3 row with
               | inr (s, p, o) => inr (Store.VInt s, Store.VInt p, Store.VInt o)
               | inl e => inl e
               end, (h, self))) as Hunpack.
    { unfold Store.on_heap, Store.unpack3_val, bind, Store.items, lift. simpl.
      rewrite Hitems, unpack3_fmap. by destruct (unpack3 row) as [e|[[s p] o]]. }
    destruct (unpack3 row) as [e|[[s p] o]].
    + rewrite (bind_inl _ _ _ _ _ Hunpack). by split.
    + rewrite (bind_inr _ _ _ _ _ Hunpack).
      unfold bind at 1, lift at 1.
      apply simulates_bind_self. intros self0 self1. unfold get. intros [= <- <-].
      unfold bind, lift.
      destruct (range_of _) as [e|rounds]; [by split|].
      apply for_simulates; [|done].
      intros acc' tg' x u' h' self' Hrep'. by apply store_corrupt_simulates.
  - assert (refs !! i = None) as Hr.
    { apply lookup_ge_None. apply lookup_ge_None in Hrow.
      by rewrite (Forall2_length _ _ _ Hrows). }
    rewrite Hr in Hget. rewrite (bind_inl _ _ _ _ _ Hget). by split.
Qed.

Lemma list_comp_int_of (xs : list Z) :
  list_comp Store.int_of (Store.VInt <$> xs) = inr xs.
Proof.
  induction xs as [|x xs IH]; [done|].
  rewrite fmap_cons. cbn [list_comp Store.int_of]. by rewrite IH.
Qed.

Lemma read_ints_represents h (t : Store.loc) (tv : list Z) :
  h !! t = Some (Store.VInt <$> tv) → Store.read_ints t h = (inr tv, h).
Proof.
  intros Ht. unfold Store.read_ints, bind, Store.items, lift.
  by rewrite Ht, list_comp_int_of.
Qed.

Lemma read_table_represents h c tl acc tg :
  represents h c tl acc tg → Store.read_table c h = (inr acc, h).
Proof.
  intros (refs & Hc & Hrows & _).
  unfold Store.read_table. unfold bind at 1, Store.items at 1. rewrite Hc.
  enough (∀ rows0,
            for_ (Store.VRef <$> refs)
              (λ rows (v : Store.val),
                 match v with
                 | Store.VInt _ => raise TypeError
                 | Store.VRef r =>
                     let* row := Store.read_ints r in ret (rows ++ [row])
                 end) rows0 h
            = (inr (rows0 ++ acc), h)) as Hgen by apply (Hgen []).
  clear Hc. induction Hrows as [|r row refs acc Hr _ IH]; intros rows0.
  - simpl. by rewrite app_nil_r.
  - rewrite fmap_cons. cbn [for_]. unfold bind at 1. unfold bind at 1.
    rewrite (read_ints_represents _ _ _ Hr). unfold ret at 1.
    rewrite IH. by rewrite <- app_assoc.
Qed.

Lemma store_loop_simulates h self c tl rows tg is_eval with_answers :
  represents h c tl rows tg →
  simulates c tl
    ((if negb is_eval
      then for_ (seq 0 (length rows)) (sample_negatives with_answers) (rows, tg)
      else ret (rows, tg)) self)
    ((if negb is_eval
      then let* n := Store.on_heap (Store.len c) in
           for_ (seq 0 n) (Store.sample_negatives with_answers c tl) tt
      else ret tt) (h, self)).
Proof.
  intros Hrep. destruct is_eval; cbn [negb]; [by split|].
  pose proof Hrep as (refs & Hc & Hrows & _).
  assert (Store.on_heap (Store.len c) (h, self) = (inr (length rows), (h, self)))
    as Hlen.
  { unfold Store.on_heap, Store.len, bind, Store.items, ret. simpl.
    rewrite Hc, length_fmap. by rewrite (Forall2_length _ _ _ Hrows). }
  rewrite (bind_inr _ _ _ _ _ Hlen).
  apply for_simulates; [|done].
  intros acc' tg' x u h' self' Hrep'. by apply store_sample_simulates.
Qed.

Lemma store_copy h self l (refs : list Store.loc) rows :
  h !! l = Some (Store.VRef <$> refs) →
  Forall2 (λ r row, h !! r = Some (Store.VInt <$> row)) refs rows →
  ∃ c h', Store.on_heap (let* vs := Store.items l in Store.new_list vs) (h, self)
          = (inr c, (h', self))
          ∧ represents h' c None rows None.
Proof.
  intros Hl Hrows. set (c := fresh (dom h)).
  assert (h !! c = None) as Hc by apply not_elem_of_dom, is_fresh.
  assert (∀ r, r ∈ refs → r ≠ c) as Hold.
  { intros r Hin ->.
    apply list_elem_of_lookup_1 in Hin as (i & Hi).
    destruct (Forall2_lookup_l _ _ _ _ _ Hrows Hi) as (row & _ & Hrow).
    congruence. }
  exists c, (<[c := Store.VRef <$> refs]> h). split.
  - unfold Store.on_heap, bind, Store.items, Store.new_list. simpl.
    by rewrite Hl.
  - exists refs. split; [by rewrite lookup_insert_eq|]. split; [|split; [|done]].
    + eapply Forall2_impl_elem; [exact Hrows|].
      intros r row Hin Hrow. rewrite lookup_insert_ne; [done|].
      intros <-. by apply (Hold c).
    + intros Hin. by apply (Hold c).
Qed.

Lemma store_new_target h self c rows (with_answers : bool) :
  represents h c None rows None →
  ∃ tl h',
    (if with_answers
     then let* n := Store.on_heap (Store.len c) in
          let* t := Store.on_heap (Store.new_list (replicate n (Store.VInt 1))) in
          ret (Some t)
     else ret None) (h, self)
    = (inr tl, (h', self))
    ∧ represents h' c tl rows
        (if with_answers then Some (replicate (length rows) 1%Z) else None).
Proof.
  intros Hrep. destruct with_answers; [|by exists None, h].
  pose proof Hrep as (refs & Hc & Hrows & Hcrefs & _).
  set (t := fresh (dom h)).
  assert (h !! t = None) as Ht by apply not_elem_of_dom, is_fresh.
  assert (t ≠ c) as Htc by (intros ->; congruence).
  assert (t ∉ refs) as Htrefs.
  { intros Hin. apply list_elem_of_lookup_1 in Hin as (i & Hi).
    destruct (Forall2_lookup_l _ _ _ _ _ Hrows Hi) as (row & _ & Hrow).
    congruence. }
  exists (Some t), (<[t := replicate (length rows) (Store.VInt 1)]> h). split.
  - unfold Store.on_heap, Store.len, Store.items, Store.new_list, ret, bind.
    simpl. rewrite Hc. simpl. fold t.
    by rewrite length_fmap, (Forall2_length _ _ _ Hrows).
  - exists refs. split; [by rewrite lookup_insert_ne|].
    split; [|split; [done|]].
    + eapply Forall2_impl_elem; [exact Hrows|].
      intros r row Hin Hrow. rewrite lookup_insert_ne; [done|]. by intros <-.
    + split; [|done]. rewrite lookup_insert_eq. by rewrite fmap_replicate.
Qed.

(** On a store that holds the table [rows] at [l], the store model ends
    like the value model on [rows]: it returns the same batch or raises the
    same exception, and leaves the module in the same state. *)
Lemma store_create_batch_refines h self l rows (is_eval with_answers : bool) :
  Store.holds_table h l rows →
  ∃ h', Store.create_batch l is_eval with_answers (h, self)
        = ((create_batch rows is_eval with_answers self).1,
           (h', (create_batch rows is_eval with_answers self).2)).
Proof.
  intros (refs & Hl & Hrows).
  destruct (store_copy h self l refs rows Hl Hrows) as (c & h1 & Hcopy & Hrep1).
  destruct (store_new_target h1 self c rows with_answers Hrep1)
    as (tl & h2 & Htarget & Hrep2).
  pose proof (store_loop_simulates h2 self c tl rows _ is_eval with_answers Hrep2)
    as Hsim.
  unfold Store.create_batch.
  rewrite (bind_inr _ _ _ _ _ Hcopy), (bind_inr _ _ _ _ _ Htarget).
  unfold create_batch, list_copy.
  match type of Hsim with
  | simulates _ _ ?ov ?os =>
      destruct ov as [[e|[acc' tg']] self'] eqn:Hv;
      destruct os as [[e'|[]] [h3 self'']] eqn:Hs
  end; destruct Hsim as [Hself Hout]; simpl in Hself, Hout; subst self''.
  - injection Hout as ->.
    rewrite (bind_inl _ _ _ _ _ Hs), (bind_inl _ _ _ _ _ Hv). by exists h3.
  - done.
  - by destruct Hout.
  - destruct Hout as [_ Hrep3].
    rewrite (bind_inr _ _ _ _ _ Hs), (bind_inr _ _ _ _ _ Hv).
    assert (Store.on_heap (Store.read_table c) (h3, self')
            = (inr acc', (h3, self'))) as Hread.
    { unfold Store.on_heap. simpl.
      by rewrite (read_table_represents _ _ _ _ _ Hrep3). }
    rewrite (bind_inr _ _ _ _ _ Hread).
    destruct with_answers; [|by exists h3].
    destruct Hrep3 as (refs3 & _ & _ & _ & Htl).
    destruct tl as [t|], tg' as [tv|]; try done; [|by exists h3].
    destruct Htl as (Ht & _).
    assert (Store.on_heap (Store.read_ints t) (h3, self')
            = (inr tv, (h3, self'))) as Hints.
    { unfold Store.on_heap. simpl. by rewrite (read_ints_represents _ _ _ Ht). }
    unfold bind at 1, lift at 1. cbn [local].
    rewrite (bind_inr _ _ _ _ _ Hints). by exists h3.
Qed.

End StoreRefinement.

(** ** The theorems on the example knowledge base *)

Lemma example_entities_nonempty : Example.positives ≠ [] → Example.entities ≠ ∅.
Proof. intros _ H%(f_equal size). vm_compute in H. discriminate. Qed.

Lemma create_batch_appends_negatives_witness :
  entity_to_index Example.reader = Some Example.entities
  ∧ Forall (λ row, length row = 3%nat) Example.positives
  ∧ ∃ negatives out self',
      create_batch Example.positives false true Example.reader = (inr out, self')
      ∧ out !! Ports_Input_question
        = Some (Array2 (Example.positives ++ concat negatives))
      ∧ Z.of_nat (length (Example.positives ++ concat negatives))
        = (2 * (1 + 2 * 2))%Z.
Proof.
  split; [reflexivity|]. split; [by repeat constructor|].
  destruct (create_batch_appends_negatives
              Example.reader Example.entities Example.positives true 2)
    as (negs & out & self' & Hrun & Hq & Hlen & _).
  - reflexivity.
  - exact example_entities_nonempty.
  - by repeat constructor.
  - by vm_compute.
  - lia.
  - by exists negs, out, self'.
Defined.

Lemma create_batch_target_alignment_witness :
  ∃ out self' negatives,
    create_batch Example.positives false true Example.reader = (inr out, self')
    ∧ (is_Some (out !! Ports_Target_target_index) ↔ true = true)
    ∧ out !! Ports_Input_question
      = Some (Array2 (Example.positives ++ negatives))
    ∧ out !! Ports_Target_target_index
      = Some (Array1 (replicate 2 1%Z ++ replicate (length negatives) 0%Z)).
Proof.
  destruct (create_batch_target_alignment
              Example.reader Example.positives false true) as [Hout Hret].
  destruct Hret as (out & self' & Hrun).
  { intros _. exists Example.entities, 2%Z.
    split; [reflexivity|]. split; [exact example_entities_nonempty|].
    split; [by repeat constructor|by vm_compute]. }
  destruct (Hout out self' Hrun) as (Hiff & negs & Hq & Ht).
  destruct (Ht eq_refl) as (target & Htg & _ & ->).
  by exists out, self', negs.
Defined.

Lemma create_batch_eval_keeps_positives_witness :
  Forall (λ row, length row = 3%nat) Example.positives
  ∧ ∃ out,
      create_batch Example.positives true false Example.reader
      = (inr out, Example.reader)
      ∧ out !! Ports_Input_question = Some (Array2 Example.positives).
Proof.
  split; [by repeat constructor|].
  destruct (create_batch_eval_keeps_positives
              Example.reader Example.positives false)
    as (out & rows & Hrun & Hq & _ & ->).
  - by repeat constructor.
  - by exists out.
Defined.

Lemma example_questions_known :
  Forall (known Example.entities Example.predicates)
         [{| question := "a r b" |}; {| question := "c r d" |}].
Proof.
  repeat constructor.
  - exists "a", "r", "b". repeat split; by eexists.
  - exists "c", "r", "d". repeat split; by eexists.
Qed.

Lemma preprocess_indexes_known_questions_witness :
  Forall (known Example.entities Example.predicates)
         [{| question := "a r b" |}; {| question := "c r d" |}]
  ∧ ∃ out,
      preprocess (Score := Z)
        [{| question := "a r b" |}; {| question := "c r d" |}] None false
        Example.reader
      = (inr out, Example.reader)
      ∧ length out = 2%nat.
Proof.
  split; [exact example_questions_known|].
  destruct (preprocess_indexes_known_questions (Score := Z)
              Example.reader Example.entities Example.predicates
              [{| question := "a r b" |}; {| question := "c r d" |}] None false)
    as (out & Hrun & Hlen & _).
  - reflexivity.
  - reflexivity.
  - exact example_questions_known.
  - by exists out.
Defined.

Lemma preprocess_unknown_token_raises_witness :
  (preprocess (Score := Z) [{| question := "a r b" |}] None false
     Example.reader).1 = inr [[0; 0; 1]%Z]
  ∧ split "a r z" = ["a"; "r"; "z"]
  ∧ Example.entities !! "z" = None
  ∧ ∃ tok,
      preprocess (Score := Z)
        ([{| question := "a r b" |}]
         ++ {| question := "a r z" |} :: [{| question := "c r d" |}])
        None false Example.reader
      = (inl (KeyError tok), Example.reader).
Proof.
  split; [by vm_compute|]. split; [by vm_compute|]. split; [by vm_compute|].
  destruct (preprocess_unknown_token_raises (Score := Z)
              Example.reader Example.entities Example.predicates
              [{| question := "a r b" |}] [{| question := "c r d" |}]
              {| question := "a r z" |} "a" "r" "z" None false
              [[0; 0; 1]%Z])
    as (tok & Hrun & _).
  - reflexivity.
  - reflexivity.
  - by vm_compute.
  - by vm_compute.
  - right. right. by vm_compute.
  - by exists tok.
Defined.

Lemma malformed_question_is_rejected_witness :
  length (split "a r") ≠ 3%nat
  ∧ (setup_from_data (Example.facts ++ ({| question := "a r" |}, []) :: [])
       Example.reader).1 = inl ValueError
  ∧ preprocess (Score := Z)
      ([{| question := "a r b" |}] ++ {| question := "a r" |} :: [])
      None false Example.reader
    = (inl ValueError, Example.reader).
Proof.
  assert (length (split "a r") ≠ 3%nat) as Hq by (by vm_compute).
  split; [exact Hq|].
  destruct (malformed_question_is_rejected (Score := Z)
              Example.reader {| question := "a r" |} Hq) as [Hsetup Hpre].
  split.
  - apply (Hsetup Example.facts [] []).
  - apply (Hpre [{| question := "a r b" |}] [] None false) with [[0; 0; 1]%Z].
    by vm_compute.
Defined.

Lemma setup_from_data_builds_bijections_witness :
  Forall (λ x, length (split (question x.1)) = 3%nat) Example.facts
  ∧ ∃ self' E P,
      setup_from_data Example.facts Example.reader = (inr tt, self')
      ∧ entity_to_index self' = Some E
      ∧ predicate_to_index self' = Some P
      ∧ bijection_onto_range E ["a"; "b"; "c"; "d"]
      ∧ bijection_onto_range P ["r"; "r"].
Proof.
  assert (Forall (λ x : QASetting * list (Answer Z),
                    length (split (question x.1)) = 3%nat) Example.facts)
    as Hwf by (by repeat constructor).
  split; [exact Hwf|].
  destruct (setup_from_data_builds_bijections Example.reader Example.facts Hwf)
    as (self' & E & P & Hrun & HE & HP & HbE & HbP & _).
  by exists self', E, P.
Defined.

Lemma index_assignment_follows_set_order_witness :
  Forall (λ x, length (split (question x.1)) = 3%nat) Example.facts
  ∧ ∃ E,
      entity_to_index (setup_from_data Example.facts Example.reader).2 = Some E
      ∧ entity_to_index
          (setup_from_data Example.facts
             (__init__ (rt := Example.runtime_a) {| config := ∅ |})).2
        = Some E.
Proof.
  assert (Forall (λ x : QASetting * list (Answer Z),
                    length (split (question x.1)) = 3%nat) Example.facts)
    as Hwf by (by repeat constructor).
  split; [exact Hwf|].
  destruct (index_assignment_follows_set_order
              Example.reader (__init__ {| config := ∅ |}) Example.facts Hwf)
    as (E & P & _ & _ & _ & _ & HE1 & HE2 & _).
  by exists E.
Defined.

(** C8, as stated, fails: two runs on the training triple ["a r b"] whose
    runtimes iterate the entity set in different orders give the token
    ["a"] the index 0 in one run and the index 1 in the other. *)
Lemma index_assignment_depends_on_set_order :
  (entity_to_index
     (setup_from_data (rt := Example.runtime_a)
        [({| question := "a r b" |}, [] : list (Answer Z))]
        (__init__ {| config := ∅ |})).2
   ≫= λ E, E !! "a") = Some 0%Z
  ∧ (entity_to_index
       (setup_from_data (rt := Example.runtime_b)
          [({| question := "a r b" |}, [] : list (Answer Z))]
          (__init__ {| config := ∅ |})).2
     ≫= λ E, E !! "a") = Some 1%Z.
Proof. split; by vm_compute. Qed.

(** The order is that of the set object, not of its elements alone.  Under
    a runtime that iterates a set in the order of first insertion, the
    training sets ["a r b"] and ["b r a"] have the same entities and give
    the token ["a"] the indices 0 and 1; and on ["a b b"; "b a a"], where
    the entity set and the predicate set hold the same tokens, ["a"] is
    entity 0 and predicate 1. *)
Lemma index_assignment_depends_on_construction :
  (entity_to_index
     (setup_from_data (rt := Example.runtime_c)
        [({| question := "a r b" |}, [] : list (Answer Z))]
        (__init__ {| config := ∅ |})).2
   ≫= λ E, E !! "a") = Some 0%Z
  ∧ (entity_to_index
       (setup_from_data (rt := Example.runtime_c)
          [({| question := "b r a" |}, [] : list (Answer Z))]
          (__init__ {| config := ∅ |})).2
     ≫= λ E, E !! "a") = Some 1%Z
  ∧ (entity_to_index
       (setup_from_data (rt := Example.runtime_c)
          [({| question := "a b b" |}, [] : list (Answer Z));
           ({| question := "b a a" |}, [])]
          (__init__ {| config := ∅ |})).2
     ≫= λ E, E !! "a") = Some 0%Z
  ∧ (predicate_to_index
       (setup_from_data (rt := Example.runtime_c)
          [({| question := "a b b" |}, [] : list (Answer Z));
           ({| question := "b a a" |}, [])]
          (__init__ {| config := ∅ |})).2
     ≫= λ P, P !! "a") = Some 1%Z.
Proof. repeat split; by vm_compute. Qed.

Lemma output_module_pairs_questions_with_logits_witness :
  length [{| question := "a r b" |}; {| question := "c r d" |}]
  = length [3; 4]%Z
  ∧ ∃ answers,
      __call__ [{| question := "a r b" |}; {| question := "c r d" |}]
        [3; 4]%Z tt
      = (inr answers, tt)
      ∧ answers = [{| text := "a r b"; score := 3%Z |};
                   {| text := "c r d"; score := 4%Z |}].
Proof.
  split; [reflexivity|].
  destruct (output_module_pairs_questions_with_logits
              [{| question := "a r b" |}; {| question := "c r d" |}] [3; 4]%Z)
    as (answers & Hrun & _ & -> & _).
  - reflexivity.
  - eexists. split; [exact Hrun|reflexivity].
Defined.

Lemma example_store_holds_positives :
  Store.holds_table Example.store 1%positive Example.positives.
Proof.
  exists [2%positive; 3%positive]. split; [by vm_compute|].
  repeat constructor; by vm_compute.
Qed.

Lemma create_batch_leaves_caller_lists_witness :
  Store.holds_table Example.store 1%positive Example.positives
  ∧ Store.holds_table
      (Store.create_batch 1%positive false true
         (Example.store, Example.reader)).2.1
      1%positive Example.positives.
Proof.
  split; [exact example_store_holds_positives|].
  destruct (create_batch_leaves_caller_lists
              Example.store Example.reader 1%positive false true)
    as (_ & _ & Hrows).
  apply Hrows, example_store_holds_positives.
Defined.

(** * Further properties of the reader *)

(** ** Vocabulary construction: state, idempotence, sizes *)
Section SetupState.
Context `{rt : Runtime} {Score : Type}.
Implicit Types (self : InputModule) (data : list (QASetting * list (Answer Score))).

Lemma InputModule_eq (σ1 σ2 : InputModule) :
  _kbp_rng σ1 = _kbp_rng σ2 →
  config (shared_resources σ1) = config (shared_resources σ2) →
  triples σ1 = triples σ2 →
  entity_set σ1 = entity_set σ2 →
  predicate_set σ1 = predicate_set σ2 →
  entity_to_index σ1 = entity_to_index σ2 →
  predicate_to_index σ1 = predicate_to_index σ2 →
  σ1 = σ2.
Proof.
  destruct σ1 as [g1 [c1] t1 es1 ps1 e1 p1], σ2 as [g2 [c2] t2 es2 ps2 e2 p2].
  cbn. by intros -> -> -> -> -> -> ->.
Qed.

Lemma wellformed_or_not data :
  Forall (λ x, length (split (question x.1)) = 3%nat) data
  ∨ Exists (λ x, length (split (question x.1)) ≠ 3%nat) data.
Proof.
  destruct (decide (Forall (λ x : QASetting * list (Answer Score),
                              length (split (question x.1)) = 3%nat) data))
    as [Hwf|Hbad]; [by left|right].
  by apply not_Forall_Exists in Hbad; [|apply _].
Qed.

(** X1: running [setup_from_data] a second time on the same training set
    changes nothing: the outcome and the whole module state are those of
    the first run, for well-formed and for rejected training sets alike. *)
Theorem setup_from_data_idempotent data self :
  setup_from_data data (setup_from_data data self).2
  = setup_from_data data self.
Proof.
  destruct (wellformed_or_not data) as [Hwf|Hbad].
  - rewrite !(setup_from_data_wellformed_state data) by done.
    change ((inr tt, vocabulary_state data self).2)
      with (vocabulary_state data self).
    f_equal. apply InputModule_eq; try reflexivity.
    rewrite !vocabulary_state_config. apply map_eq. intros k.
    rewrite !lookup_insert. by repeat case_decide.
  - rewrite !(setup_from_data_malformed data) by done. reflexivity.
Qed.

(** X2: whatever the training set, [setup_from_data] leaves the random
    source and every configuration entry other than the two published
    mappings as they were, and always stores the token lists in
    [self.triples], also when it then rejects the training set (the
    vocabulary attributes then keep their earlier values). *)
Theorem setup_from_data_frame data self :
  _kbp_rng (setup_from_data data self).2 = _kbp_rng self
  ∧ triples (setup_from_data data self).2
    = Some ((λ x, split (question x.1)) <$> data)
  ∧ (∀ k, k ≠ "entity_to_index" → k ≠ "predicate_to_index" →
       config (shared_resources (setup_from_data data self).2) !! k
       = config (shared_resources self) !! k)
  ∧ ((setup_from_data data self).1 ≠ inr tt →
       entity_to_index (setup_from_data data self).2 = entity_to_index self
       ∧ predicate_to_index (setup_from_data data self).2
         = predicate_to_index self).
Proof.
  destruct (wellformed_or_not data) as [Hwf|Hbad].
  - rewrite (setup_from_data_wellformed_state data) by done.
    change ((inr tt, vocabulary_state data self).2)
      with (vocabulary_state data self).
    rewrite vocabulary_state_rng, vocabulary_state_triples,
      vocabulary_state_config.
    split; [reflexivity|]. split; [reflexivity|]. split.
    + intros k Hk1 Hk2. by rewrite !lookup_insert_ne.
    + intros Hfail. by destruct Hfail.
  - rewrite (setup_from_data_malformed data) by done.
    split; [reflexivity|]. split; [reflexivity|]. split; [|split; reflexivity].
    intros k _ _. reflexivity.
Qed.

Lemma length_set_iter (X : pyset) : length (set_iter X) = size (members X).
Proof. by rewrite set_iter_perm. Qed.

Lemma size_list_to_set_le (xs : list string) :
  (size (list_to_set xs : gset string) ≤ length xs)%nat.
Proof.
  unfold size, set_size. cbn. apply submseteq_length, NoDup_submseteq.
  - apply NoDup_elements.
  - intros x. rewrite elem_of_elements. apply elem_of_list_to_set.
Qed.

Lemma observed_lengths data :
  Forall (λ x, length (split (question x.1)) = 3%nat) data →
  length (observed_entities data) = (2 * length data)%nat
  ∧ length (observed_predicates data) = length data.
Proof.
  induction 1 as [|x data Hx _ [IHe IHp]]; [done|].
  destruct (unpack3_length _ Hx) as (s & p & o & Hsplit).
  unfold observed_entities, observed_predicates in *.
  cbn [flat_map]. rewrite Hsplit, !length_app, IHe, IHp. simpl. lia.
Qed.

(** X3: on a non-empty training set of well-formed questions both
    vocabularies are non-empty and no larger than the training set allows:
    at most two entities and one predicate per triple. *)
Theorem setup_from_data_vocabulary_sizes data self :
  Forall (λ x, length (split (question x.1)) = 3%nat) data →
  data ≠ [] →
  ∃ E P,
    entity_to_index (setup_from_data data self).2 = Some E
    ∧ predicate_to_index (setup_from_data data self).2 = Some P
    ∧ (1 ≤ size E ≤ 2 * length data)%nat
    ∧ (1 ≤ size P ≤ length data)%nat.
Proof.
  intros Hwf Hne.
  rewrite (setup_from_data_wellformed_state data) by done.
  change ((inr tt, vocabulary_state data self).2)
    with (vocabulary_state data self).
  rewrite vocabulary_state_entity_to_index, vocabulary_state_predicate_to_index.
  eexists _, _. split; [reflexivity|]. split; [reflexivity|].
  destruct (observed_lengths data Hwf) as [Hle Hlp].
  rewrite !index_dict_size by apply set_iter_NoDup.
  rewrite !length_set_iter, members_built_entity_set,
    members_built_predicate_set by done.
  pose proof (size_list_to_set_le (observed_entities data)) as HsE.
  pose proof (size_list_to_set_le (observed_predicates data)) as HsP.
  destruct data as [|x data]; [done|].
  apply Forall_cons in Hwf as [Hx _].
  destruct (unpack3_length _ Hx) as (s & p & o & Hsplit).
  assert (size (list_to_set (observed_entities (x :: data)) : gset string) ≠ 0%nat)
    as HnE.
  { apply size_non_empty_iff. intros Hempty.
    apply (not_elem_of_empty (C := gset string) s). rewrite <- Hempty.
    apply elem_of_list_to_set. unfold observed_entities. cbn [flat_map].
    rewrite Hsplit. apply elem_of_app. left. by left. }
  assert (size (list_to_set (observed_predicates (x :: data)) : gset string) ≠ 0%nat)
    as HnP.
  { apply size_non_empty_iff. intros Hempty.
    apply (not_elem_of_empty (C := gset string) p). rewrite <- Hempty.
    apply elem_of_list_to_set. unfold observed_predicates. cbn [flat_map].
    rewrite Hsplit. apply elem_of_app. left. by left. }
  lia.
Qed.

End SetupState.

(** ** Preprocessing: round trip and concatenation *)
Section PreprocessMore.
Context `{rt : Runtime} {Score : Type}.
Implicit Types (self : InputModule) (data : list (QASetting * list (Answer Score))).

Lemma observed_tokens data x (s p o : string) :
  x ∈ data → split (question x.1) = [s; p; o] →
  s ∈ observed_entities data ∧ o ∈ observed_entities data
  ∧ p ∈ observed_predicates data.
Proof.
  intros Hx Hsplit. unfold observed_entities, observed_predicates.
  rewrite !list_elem_of_In, !in_flat_map.
  apply list_elem_of_In in Hx.
  repeat split; exists x; (split; [done|]); rewrite Hsplit;
    apply list_elem_of_In; set_solver.
Qed.

Lemma bijection_in_range (m : gmap string Z) toks tok i :
  bijection_onto_range m toks → m !! tok = Some i →
  (0 ≤ i < Z.of_nat (size m))%Z.
Proof. intros (_ & _ & Hrange) Hi. apply Hrange. by exists tok. Qed.

(** X4: after [setup_from_data] on well-formed training questions,
    [preprocess] accepts those same questions: it returns one valid
    indexed triple per question, and looking the three indices up in the
    inverse tables gives the question's tokens back. *)
Theorem setup_then_preprocess_round_trip data self
    (answers : option (list (list (Answer Score)))) (is_eval : bool) :
  Forall (λ x, length (split (question x.1)) = 3%nat) data →
  ∃ E P out,
    entity_to_index (setup_from_data data self).2 = Some E
    ∧ predicate_to_index (setup_from_data data self).2 = Some P
    ∧ preprocess (fst <$> data) answers is_eval (setup_from_data data self).2
      = (inr out, (setup_from_data data self).2)
    ∧ length out = length data
    ∧ (∀ i x, data !! i = Some x →
         ∃ s p o si pi oi,
           split (question x.1) = [s; p; o]
           ∧ out !! i = Some [si; pi; oi]
           ∧ index_to_token E !! si = Some s
           ∧ index_to_token P !! pi = Some p
           ∧ index_to_token E !! oi = Some o
           ∧ valid_triple E P [si; pi; oi]).
Proof.
  intros Hwf.
  rewrite (setup_from_data_wellformed_state data) by done.
  change ((inr tt, vocabulary_state data self).2)
    with (vocabulary_state data self).
  destruct (built_vocabulary_bijections data Hwf) as [HbE HbP].
  set (E := index_dict (set_iter (built_entity_set data))) in *.
  set (P := index_dict (set_iter (built_predicate_set data))) in *.
  assert (Forall (known E P) (fst <$> data)) as Hknown.
  { apply Forall_fmap, Forall_forall. intros x Hx.
    rewrite Forall_forall in Hwf.
    destruct (unpack3_length _ (Hwf x Hx)) as (s & p & o & Hsplit).
    destruct (observed_tokens data x s p o Hx Hsplit) as (Hs & Ho & Hp).
    exists s, p, o. split; [done|].
    destruct HbE as (HE & _), HbP as (HP & _).
    repeat split; [by apply HE|by apply HP|by apply HE]. }
  destruct (list_comp_known E P _ Hknown) as (out & Hout & Hall).
  exists E, P, out. split; [reflexivity|]. split; [reflexivity|].
  split; [|split].
  - unfold preprocess. rewrite (preprocess_loop _ E P) by reflexivity.
    by rewrite Hout.
  - rewrite <- (Forall2_length _ _ _ Hall). by rewrite length_fmap.
  - intros i x Hx.
    assert ((fst <$> data) !! i = Some x.1) as Hq
      by (by rewrite list_lookup_fmap, Hx).
    destruct (Forall2_lookup_l _ _ _ _ _ Hall Hq) as (t & Ht & Hi).
    rewrite Forall_lookup in Hknown.
    destruct (index_question_known E P _ (Hknown i _ Hq))
      as (s & p & o & si & pi & oi & Hsplit & Hs & Hp & Ho & Hi').
    exists s, p, o, si, pi, oi. split; [done|]. split; [congruence|].
    destruct HbE as (HE1 & HE2 & HE3), HbP as (HP1 & HP2 & HP3).
    split; [by apply HE2|]. split; [by apply HP2|]. split; [by apply HE2|].
    exists si, pi, oi. split; [done|].
    split; [apply HE3; by exists s|]. split; [apply HP3; by exists p|].
    apply HE3. by exists o.
Qed.

Lemma preprocess_question_acc acc (q : QASetting) self :
  preprocess_question acc q self
  = match preprocess_question [] q self with
    | (inr t, self') => (inr (acc ++ t), self')
    | (inl e, self') => (inl e, self')
    end.
Proof.
  unfold preprocess_question, bind, lift, getattr, ret.
  repeat (case_match; simplify_eq/=); done.
Qed.

Lemma preprocess_question_state acc (q : QASetting) self :
  (preprocess_question acc q self).2 = self.
Proof.
  unfold preprocess_question, bind, lift, getattr, ret.
  repeat (case_match; simplify_eq/=); done.
Qed.

Lemma preprocess_loop_acc (qs : list QASetting) acc self :
  for_ qs preprocess_question acc self
  = match for_ qs preprocess_question [] self with
    | (inr ts, self') => (inr (acc ++ ts), self')
    | (inl e, self') => (inl e, self')
    end.
Proof.
  revert acc. induction qs as [|q qs IH]; intros acc.
  - simpl. by rewrite app_nil_r.
  - cbn [for_]. unfold bind. rewrite (preprocess_question_acc acc).
    pose proof (preprocess_question_state [] q self) as Hst.
    destruct (preprocess_question [] q self) as [[e|t] self']; [done|].
    simpl in Hst. subst self'. rewrite (IH (acc ++ t)), (IH t).
    destruct (for_ qs preprocess_question [] self) as [[e|ts] self']; [done|].
    by rewrite app_assoc.
Qed.

(** X5: [preprocess] works question by question: on a concatenation it
    returns the concatenation of the results of the two parts, and it
    raises what the first failing part raises. Splitting a list of
    questions into batches does not change the triples. *)
Theorem preprocess_concatenation (qs1 qs2 : list QASetting)
    (answers : option (list (list (Answer Score)))) (is_eval : bool) self :
  preprocess (qs1 ++ qs2) answers is_eval self
  = match (preprocess qs1 answers is_eval self).1 with
    | inl e => (inl e, self)
    | inr out1 =>
        match (preprocess qs2 answers is_eval self).1 with
        | inl e => (inl e, self)
        | inr out2 => (inr (out1 ++ out2), self)
        end
    end.
Proof.
  rewrite preprocess_app.
  pose proof (preprocess_state qs1 answers is_eval self) as H1.
  pose proof (preprocess_state qs2 answers is_eval self) as H2.
  destruct (preprocess qs1 answers is_eval self) as [[e|out1] self1];
    simpl in H1; subst self1; [done|].
  cbn [fst]. rewrite preprocess_loop_acc.
  unfold preprocess in *.
  destruct (for_ qs2 preprocess_question [] self) as [[e|out2] self2];
    simpl in H2; by subst self2.
Qed.

(** X6: on a module whose vocabulary has not been built, [preprocess]
    returns the empty list for no questions and otherwise fails on the
    first question: with [AttributeError] when that question has three
    tokens, with [ValueError] when it has not. *)
Theorem preprocess_before_setup (q : QASetting) (qs : list QASetting)
    (answers : option (list (list (Answer Score)))) (is_eval : bool) self :
  entity_to_index self = None →
  preprocess [] answers is_eval self = (inr [], self)
  ∧ preprocess (q :: qs) answers is_eval self
    = (inl (if decide (length (split (question q)) = 3%nat)
            then AttributeError "entity_to_index" else ValueError), self).
Proof.
  intros HE. split; [done|].
  unfold preprocess. cbn [for_]. unfold bind at 1.
  case_decide as Hlen.
  - destruct (unpack3_length _ Hlen) as (s & p & o & Hsplit).
    unfold preprocess_question, bind, lift, getattr.
    rewrite Hsplit. cbn [unpack3]. by rewrite HE.
  - by rewrite preprocess_question_malformed.
Qed.

End PreprocessMore.

(** ** Batch assembly: edge cases *)
Section CreateBatchEdges.
Context `{rt : Runtime}.
Implicit Types (self : InputModule) (E P : gmap string Z).
Implicit Types (acc rows : list (list Z)) (t : list Z).

Lemma set_kbp_rng_id self : set_kbp_rng (_kbp_rng self) self = self.
Proof. by destruct self. Qed.

Lemma sample_negatives_no_rounds self with_answers (k : Z) acc tg (i : nat)
    (row : list Z) :
  acc !! i = Some row → length row = 3%nat →
  dict_get (config (shared_resources self)) "num_negative" (CInt 1) = CInt k →
  (k ≤ 0)%Z →
  sample_negatives with_answers (acc, tg) i self = (inr (acc, tg), self).
Proof.
  intros Hrow Hlen Hk Hk0.
  destruct (unpack3_length _ Hlen) as (s & p & o & ->).
  unfold sample_negatives. cbn [fst]. unfold getitem. rewrite Hrow.
  cbn [unpack3]. unfold bind, lift, get. rewrite Hk. cbn [range_of].
  unfold range. by replace (Z.to_nat k) with 0%nat by lia.
Qed.

Lemma sample_loop_no_rounds self with_answers (k : Z) acc tg (idx : list nat) :
  (∀ i, i ∈ idx → ∃ row, acc !! i = Some row ∧ length row = 3%nat) →
  dict_get (config (shared_resources self)) "num_negative" (CInt 1) = CInt k →
  (k ≤ 0)%Z →
  for_ idx (sample_negatives with_answers) (acc, tg) self = (inr (acc, tg), self).
Proof.
  intros Hidx Hk Hk0. induction idx as [|i idx IH]; [done|].
  cbn [for_]. destruct (Hidx i) as (row & Hrow & Hlen); [by left|].
  rewrite (bind_inr _ _ _ _ _
             (sample_negatives_no_rounds self with_answers k acc tg i row
                Hrow Hlen Hk Hk0)).
  apply IH. intros j Hj. apply Hidx. by right.
Qed.

(** X7: with [num_negative] zero or negative, training mode samples
    nothing: the batch is the list of positives (with a target 1 each when
    answers are asked for), the random source is not used, and no
    vocabulary is needed. *)
Theorem create_batch_without_rounds self (triples : list (list Z))
    (with_answers : bool) (k : Z) :
  Forall (λ row, length row = 3%nat) triples →
  dict_get (config (shared_resources self)) "num_negative" (CInt 1) = CInt k →
  (k ≤ 0)%Z →
  ∃ out,
    create_batch triples false with_answers self = (inr out, self)
    ∧ out !! Ports_Input_question = Some (Array2 triples)
    ∧ out !! Ports_Target_target_index
      = if with_answers
        then Some (Array1 (replicate (length triples) 1%Z)) else None.
Proof.
  intros Hrows Hk Hk0.
  exists (batch with_answers triples (replicate (length triples) 1%Z)).
  split; [|split; [apply batch_question|apply batch_target]].
  unfold create_batch, list_copy. cbn [negb].
  erewrite bind_inr; [|apply (sample_loop_no_rounds self with_answers k); try done].
  - unfold batch. by destruct with_answers.
  - intros i Hi%elem_of_seq.
    destruct (lookup_lt_is_Some_2 triples i) as [row Hrow]; [lia|].
    exists row. split; [done|].
    rewrite Forall_lookup in Hrows. by eapply Hrows.
Qed.

Lemma corrupt_empty_range self with_answers (s p o : Z)
    (a : list (list Z) * option (list Z)) (i : nat) :
  entity_to_index self = Some ∅ →
  corrupt with_answers s p o a i self = (inl ValueError, self).
Proof.
  intros HE. destruct a as [acc tg]. unfold corrupt.
  rewrite (bind_inr _ _ _ (∅ : gmap string Z) self)
    by (unfold getattr; by rewrite HE).
  apply bind_inl. unfold with_rng, randint. rewrite map_size_empty.
  destruct (decide (0 ≤ Z.of_nat 0 - 1)%Z) as [?|_]; [lia|].
  by rewrite set_kbp_rng_id.
Qed.

Lemma corrupt_no_vocabulary self with_answers (s p o : Z)
    (a : list (list Z) * option (list Z)) (i : nat) :
  entity_to_index self = None →
  corrupt with_answers s p o a i self
  = (inl (AttributeError "entity_to_index"), self).
Proof.
  intros HE. destruct a as [acc tg]. unfold corrupt.
  apply bind_inl. unfold getattr. by rewrite HE.
Qed.

(** The first positive of a training batch, when its first round raises. *)
Lemma create_batch_first_round_raises self (row : list Z)
    (rest : list (list Z)) with_answers (k : Z) (e : exn) :
  length row = 3%nat →
  dict_get (config (shared_resources self)) "num_negative" (CInt 1) = CInt k →
  (0 < k)%Z →
  (∀ s p o a i, corrupt with_answers s p o a i self = (inl e, self)) →
  create_batch (row :: rest) false with_answers self = (inl e, self).
Proof.
  intros Hlen Hk Hk0 Hcorrupt.
  destruct (unpack3_length _ Hlen) as (s & p & o & ->).
  unfold create_batch, list_copy. cbn [negb length seq for_].
  apply bind_inl. apply bind_inl.
  unfold sample_negatives. cbn [fst]. unfold getitem. cbn [lookup list_lookup].
  cbn [unpack3]. unfold bind at 1, lift at 1.
  unfold bind at 1, get at 1. rewrite Hk.
  unfold bind at 1, lift at 1. cbn [range_of]. unfold range.
  destruct (Z.to_nat k) as [|n] eqn:Hn; [lia|].
  cbn [seq for_]. apply bind_inl. apply Hcorrupt.
Qed.

(** X8: with an empty entity vocabulary (as after [setup_from_data] on an
    empty training set) negative sampling has no index to draw:
    [create_batch] in training mode with a positive count raises
    [ValueError] at the first positive and leaves the module unchanged. *)
Theorem create_batch_empty_vocabulary self (row : list Z)
    (rest : list (list Z)) (with_answers : bool) (k : Z) :
  entity_to_index self = Some ∅ →
  length row = 3%nat →
  dict_get (config (shared_resources self)) "num_negative" (CInt 1) = CInt k →
  (0 < k)%Z →
  create_batch (row :: rest) false with_answers self = (inl ValueError, self).
Proof.
  intros HE Hlen Hk Hk0.
  apply (create_batch_first_round_raises self row rest with_answers k);
    try done.
  intros s p o a i. by apply corrupt_empty_range.
Qed.

(** X9: before [setup_from_data] has run, [create_batch] still assembles
    evaluation batches, but in training mode with a positive count it
    raises [AttributeError] at the first positive, the module being left
    unchanged. *)
Theorem create_batch_before_setup self (row : list Z)
    (rest : list (list Z)) (with_answers : bool) (k : Z) :
  entity_to_index self = None →
  length row = 3%nat →
  dict_get (config (shared_resources self)) "num_negative" (CInt 1) = CInt k →
  (0 < k)%Z →
  create_batch (row :: rest) false with_answers self
  = (inl (AttributeError "entity_to_index"), self)
  ∧ ∃ out, create_batch (row :: rest) true with_answers self = (inr out, self).
Proof.
  intros HE Hlen Hk Hk0. split.
  - apply (create_batch_first_round_raises self row rest with_answers k);
      try done.
    intros s p o a i. by apply corrupt_no_vocabulary.
  - eexists. apply create_batch_eval.
Qed.

End CreateBatchEdges.

(** ** Batch assembly: what the rows and the random source look like *)
Section CreateBatchRows.
Context `{rt : Runtime}.
Implicit Types (self : InputModule) (E P : gmap string Z).
Implicit Types (acc rows : list (list Z)) (t : list Z).

Lemma negatives_of_zero (s p o : Z) (n : nat) :
  negatives_of s p o (replicate n (0, 0)%Z)
  = concat (replicate n [[0; p; o]; [s; p; 0]]%Z).
Proof.
  unfold negatives_of. induction n as [|n IH]; [done|].
  cbn [replicate flat_map concat]. by rewrite IH.
Qed.

Lemma draws_single_entity E (draws : list (Z * Z)) :
  size E = 1%nat → Forall (in_range E) draws →
  draws = replicate (length draws) (0, 0)%Z.
Proof.
  intros Hsize. induction 1 as [|[d1 d2] draws [H1 H2] _ IH]; [done|].
  rewrite Hsize in H1, H2. simpl in H1, H2. cbn [length replicate].
  rewrite <- IH. do 2 f_equal; lia.
Qed.

Lemma negatives_single_entity E (k : Z) (triples : list (list Z)) negs :
  size E = 1%nat → Forall2 (negatives_for E k) triples negs →
  negs = zero_negatives k <$> triples.
Proof.
  intros Hsize.
  induction 1 as [|row ns triples negs (s & p & o & draws & -> & Hlen & -> & Hall) _ IH];
    [done|].
  rewrite fmap_cons, <- IH. f_equal. cbn [zero_negatives].
  rewrite (draws_single_entity E draws Hsize Hall), Hlen.
  apply negatives_of_zero.
Qed.

(** X10: with a vocabulary of exactly one entity every draw is the index 0:
    the negatives of a positive [(s, p, o)] are [(0, p, o)] and
    [(s, p, 0)], once per round, whatever the random source does. No check
    keeps a negative from being equal to its positive. *)
Theorem create_batch_single_entity self E (triples : list (list Z))
    (with_answers : bool) (k : Z) :
  entity_to_index self = Some E →
  size E = 1%nat →
  Forall (λ row, length row = 3%nat) triples →
  dict_get (config (shared_resources self)) "num_negative" (CInt 1) = CInt k →
  ∃ out self',
    create_batch triples false with_answers self = (inr out, self')
    ∧ out !! Ports_Input_question
      = Some (Array2 (triples ++ concat (zero_negatives k <$> triples))).
Proof.
  intros HE Hsize Hrows Hk.
  assert (E ≠ ∅) as Hne.
  { apply map_size_non_empty_iff. by rewrite Hsize. }
  destruct (create_batch_training self E triples with_answers k HE
              (λ _, Hne) Hk Hrows) as (negs & self' & Hrun & Hnegs & _).
  eexists _, self'. split; [exact Hrun|].
  rewrite batch_question.
  by rewrite (negatives_single_entity E k triples negs Hsize Hnegs).
Qed.

Lemma sample_negatives_malformed self with_answers
    (a : list (list Z) * option (list Z)) (i : nat) (row : list Z) :
  a.1 !! i = Some row → length row ≠ 3%nat →
  sample_negatives with_answers a i self = (inl ValueError, self).
Proof.
  intros Hrow Hlen. unfold sample_negatives. apply bind_inl.
  unfold lift, getitem. by rewrite Hrow, unpack3_malformed.
Qed.

Lemma seq_split_at (n m : nat) :
  seq 0 (n + S m) = seq 0 n ++ n :: seq (S n) m.
Proof. by rewrite seq_app. Qed.

(** X11: in training mode a row that does not have exactly three
    components is never batched: [create_batch] returns no batch for a list
    that contains one, and it raises [ValueError] at that row when the
    rows before it are triples and the vocabulary is built and non-empty. *)
Theorem create_batch_malformed_row self (pre post : list (list Z))
    (row : list Z) (with_answers : bool) :
  length row ≠ 3%nat →
  (∃ e, (create_batch (pre ++ row :: post) false with_answers self).1 = inl e)
  ∧ (∀ E k,
       entity_to_index self = Some E → E ≠ ∅ →
       Forall (λ r, length r = 3%nat) pre →
       dict_get (config (shared_resources self)) "num_negative" (CInt 1)
       = CInt k →
       (create_batch (pre ++ row :: post) false with_answers self).1
       = inl ValueError).
Proof.
  intros Hlen.
  assert (∀ (a : list (list Z) * option (list Z)) σ,
            (∃ extra, a.1 = (pre ++ row :: post) ++ extra) →
            for_ (length pre :: seq (S (length pre)) (length post))
                 (sample_negatives with_answers) a σ
            = (inl ValueError, σ)) as Hat.
  { intros a σ (extra & Ha). cbn [for_]. apply bind_inl.
    apply (sample_negatives_malformed σ with_answers a (length pre) row);
      [|done].
    rewrite Ha, <- app_assoc, <- app_comm_cons.
    by apply list_lookup_middle. }
  assert (for_ (seq 0 (length (pre ++ row :: post)))
            (sample_negatives with_answers)
            (pre ++ row :: post,
             targets with_answers
               (replicate (length (pre ++ row :: post)) 1%Z)) self
          = match for_ (seq 0 (length pre)) (sample_negatives with_answers)
                    (pre ++ row :: post,
                     targets with_answers
                       (replicate (length (pre ++ row :: post)) 1%Z)) self
            with
            | (inr a, σ) =>
                for_ (length pre :: seq (S (length pre)) (length post))
                     (sample_negatives with_answers) a σ
            | (inl e, σ) => (inl e, σ)
            end) as Hsplit.
  { rewrite (length_app pre) at 1. cbn [length]. rewrite seq_split_at.
    apply for_app. }
  unfold create_batch, list_copy. cbn [negb].
  change (if with_answers
          then Some (replicate (length (pre ++ row :: post)) 1%Z)
          else None)
    with (targets with_answers (replicate (length (pre ++ row :: post)) 1%Z)).
  split.
  - destruct (for_ (seq 0 (length pre)) (sample_negatives with_answers)
                (pre ++ row :: post,
                 targets with_answers
                   (replicate (length (pre ++ row :: post)) 1%Z)) self)
      as [[e|a] σ] eqn:Hpre.
    + exists e. by rewrite (bind_inl _ _ _ _ _ Hsplit).
    + exists ValueError.
      rewrite Hat in Hsplit; [by rewrite (bind_inl _ _ _ _ _ Hsplit)|].
      assert (aligned with_answers (pre ++ row :: post) a)
        as (extra & Hrows & _); [|by exists extra].
      eapply (for_invariant
                (λ a _, aligned with_answers (pre ++ row :: post) a));
        [| |exact Hpre].
      * exists []. cbn [fst snd length replicate]. by rewrite !app_nil_r.
      * intros a1 x τ1 a2 τ2 Ha Hstep. by eapply sample_negatives_aligned.
  - intros E k HE Hne Hpre Hk.
    destruct (sample_loop self E with_answers k [] pre (row :: post)
                (replicate (length (pre ++ row :: post)) 1%Z) HE
                (λ _, Hne) Hk Hpre) as (negs & self' & Hloop & _).
    cbn [length app] in Hloop. rewrite Hloop in Hsplit.
    rewrite Hat in Hsplit; [by rewrite (bind_inl _ _ _ _ _ Hsplit)|].
    exists (concat negs). cbn [fst]. by rewrite <- !app_assoc.
Qed.

Lemma negatives_valid E P (k : Z) (triples : list (list Z)) negs :
  Forall (valid_triple E P) triples →
  Forall2 (negatives_for E k) triples negs →
  Forall (valid_triple E P) (concat negs).
Proof.
  intros Hvalid Hnegs. revert Hvalid.
  induction Hnegs
    as [|row ns triples negs (s & p & o & draws & -> & _ & -> & Hall) _ IH];
    intros Hvalid; [constructor|].
  apply Forall_cons in Hvalid
    as [(s' & p' & o' & [= <- <- <-] & Hs & Hp & Ho) Hvalid].
  cbn [concat]. apply Forall_app. split; [|by apply IH].
  unfold negatives_of. clear IH. induction Hall as [|d draws [Hd1 Hd2] _ IH'].
  - constructor.
  - cbn [flat_map]. repeat constructor; [| |exact IH'].
    + by exists d.1, p, o.
    + by exists s, p, d.2.
Qed.

Lemma valid_triples_wellformed E P (triples : list (list Z)) :
  Forall (valid_triple E P) triples →
  Forall (λ row, length row = 3%nat) triples ∧ (triples ≠ [] → E ≠ ∅).
Proof.
  intros Hvalid. split.
  - eapply Forall_impl; [exact Hvalid|]. by intros row (s & p & o & -> & _).
  - intros Hne. destruct Hvalid as [|row triples (s & p & o & _ & Hs & _) _];
      [done|].
    apply map_size_non_empty_iff. lia.
Qed.

(** The rows of a training batch built from valid positives. *)
Lemma create_batch_valid_rows self E P (triples : list (list Z))
    with_answers (k : Z) :
  entity_to_index self = Some E →
  Forall (valid_triple E P) triples →
  dict_get (config (shared_resources self)) "num_negative" (CInt 1) = CInt k →
  ∃ rows out self',
    create_batch triples false with_answers self = (inr out, self')
    ∧ out !! Ports_Input_question = Some (Array2 rows)
    ∧ Forall (valid_triple E P) rows
    ∧ length rows = (length triples * (1 + 2 * Z.to_nat k))%nat.
Proof.
  intros HE Hvalid Hk.
  destruct (valid_triples_wellformed E P triples Hvalid) as [Hrows Hne].
  destruct (create_batch_training self E triples with_answers k HE Hne Hk Hrows)
    as (negs & self' & Hrun & Hnegs & _).
  eexists (triples ++ concat negs), _, self'.
  split; [exact Hrun|]. split; [apply batch_question|]. split.
  - apply Forall_app. split; [done|]. by eapply negatives_valid.
  - rewrite length_app, (negatives_count E k triples negs Hnegs). lia.
Qed.

(** X12: negative sampling keeps the indices valid: when every positive is
    a valid indexed triple for the vocabulary, so is every row of the
    training batch, the drawn entities included; no row can index outside
    tables of [size E] entity rows and [size P] predicate rows. *)
Theorem create_batch_keeps_indices_valid self E P (triples : list (list Z))
    (with_answers : bool) (k : Z) :
  entity_to_index self = Some E →
  Forall (valid_triple E P) triples →
  dict_get (config (shared_resources self)) "num_negative" (CInt 1) = CInt k →
  ∃ rows out self',
    create_batch triples false with_answers self = (inr out, self')
    ∧ out !! Ports_Input_question = Some (Array2 rows)
    ∧ (∀ row, row ∈ rows →
         ∃ s p o, row = [s; p; o]
                  ∧ (0 ≤ s < Z.of_nat (size E))%Z
                  ∧ (0 ≤ p < Z.of_nat (size P))%Z
                  ∧ (0 ≤ o < Z.of_nat (size E))%Z).
Proof.
  intros HE Hvalid Hk.
  destruct (create_batch_valid_rows self E P triples with_answers k HE Hvalid Hk)
    as (rows & out & self' & Hrun & Hq & Hall & _).
  exists rows, out, self'. split; [done|]. split; [done|].
  intros row Hrow. rewrite Forall_forall in Hall. by apply Hall.
Qed.

(** X13: the keys of every batch [create_batch] returns are the module's
    [output_ports], together with its [training_ports] exactly when
    answers are asked for. *)
Theorem create_batch_keys_are_ports self (triples : list (list Z))
    (is_eval with_answers : bool) out self' :
  create_batch triples is_eval with_answers self = (inr out, self') →
  ∀ port,
    is_Some (out !! port)
    ↔ port ∈ output_ports self
      ∨ (with_answers = true ∧ port ∈ training_ports self).
Proof.
  intros Hrun port.
  destruct (create_batch_aligned _ _ _ _ _ _ Hrun) as (negatives & ->).
  unfold output_ports, training_ports. rewrite !list_elem_of_singleton.
  destruct port.
  - rewrite batch_question. split; [by left|by eexists].
  - rewrite batch_target. destruct with_answers.
    + split; [by right|by eexists].
    + split; [by intros []|]. by intros [?|[? _]].
Qed.

End CreateBatchRows.

(** ** Batch assembly: the random source *)
Section CreateBatchRandom.
Context `{rt : Runtime}.
Implicit Types (self : InputModule) (E : gmap string Z).
Implicit Types (acc rows : list (list Z)) (t : list Z).

Lemma advance_add (n1 n2 : nat) (m : Z) (g : Random) :
  advance (n1 + n2) m g = advance n2 m (advance n1 m g).
Proof. unfold advance. by rewrite Nat.add_comm, Nat.iter_add. Qed.

Lemma with_rng_randint_state self (m : Z) :
  (0 < m)%Z →
  with_rng (randint 0 (m - 1)) self
  = (inr (randrange (_kbp_rng self) m).1,
     set_kbp_rng (advance 1 m (_kbp_rng self)) self).
Proof.
  intros Hm. unfold with_rng, randint.
  destruct (decide (0 ≤ m - 1)%Z) as [_|]; [|lia].
  replace (m - 1 - 0 + 1)%Z with m by lia.
  change (advance 1 m (_kbp_rng self)) with (randrange (_kbp_rng self) m).2.
  destruct (randrange (_kbp_rng self) m) as [r g']. cbn [fst snd].
  by rewrite Z.add_0_l.
Qed.

Lemma corrupt_round_state self E with_answers (s p o : Z) acc t (i : nat) :
  entity_to_index self = Some E → E ≠ ∅ →
  ∃ d,
    corrupt with_answers s p o (acc, targets with_answers t) i self
    = (inr (acc ++ negatives_of s p o [d],
            targets with_answers (t ++ [0; 0]%Z)),
       set_kbp_rng (advance 2 (Z.of_nat (size E)) (_kbp_rng self)) self).
Proof.
  intros HE Hne.
  assert (0 < Z.of_nat (size E))%Z as Hsize.
  { apply map_size_non_empty_iff in Hne. lia. }
  set (m := Z.of_nat (size E)) in *.
  exists ((randrange (_kbp_rng self) m).1,
          (randrange (advance 1 m (_kbp_rng self)) m).1).
  unfold corrupt.
  rewrite (bind_inr _ _ _ E self) by (unfold getattr; by rewrite HE).
  rewrite (bind_inr _ _ _ _ _ (with_rng_randint_state self m Hsize)).
  rewrite (bind_inr _ _ _ E _) by (unfold getattr; cbn; by rewrite HE).
  rewrite (bind_inr _ _ _ _ _ (with_rng_randint_state _ m Hsize)).
  unfold negatives_of. cbn [flat_map fst snd app]. rewrite <- !app_assoc.
  cbn [app _kbp_rng set_kbp_rng].
  change (advance 1 m (advance 1 m (_kbp_rng self)))
    with (advance 2 m (_kbp_rng self)).
  destruct with_answers; cbn [targets]; [|done].
  unfold bind, lift, ret. cbn [local]. by rewrite <- app_assoc.
Qed.

Lemma corrupt_rounds_state self E with_answers (s p o : Z)
    (rounds : list nat) acc t :
  entity_to_index self = Some E → E ≠ ∅ →
  ∃ a,
    for_ rounds (corrupt with_answers s p o) (acc, targets with_answers t) self
    = (inr a,
       set_kbp_rng
         (advance (2 * length rounds) (Z.of_nat (size E)) (_kbp_rng self))
         self)
    ∧ ∃ extra t', a = (acc ++ extra, targets with_answers t').
Proof.
  intros HE Hne. revert self acc t HE.
  induction rounds as [|i rounds IH]; intros self acc t HE.
  - exists (acc, targets with_answers t). split.
    + cbn [for_ length].
      change (advance (2 * 0) (Z.of_nat (size E)) (_kbp_rng self))
        with (_kbp_rng self).
      by rewrite set_kbp_rng_id.
    + exists [], t. by rewrite app_nil_r.
  - destruct (corrupt_round_state self E with_answers s p o acc t i HE Hne)
      as (d & Hd).
    destruct (IH (set_kbp_rng (advance 2 (Z.of_nat (size E)) (_kbp_rng self))
                    self)
                (acc ++ negatives_of s p o [d]) (t ++ [0; 0]%Z))
      as (a & Hrest & extra & t' & ->); [done|].
    eexists. split.
    + cbn [for_]. rewrite (bind_inr _ _ _ _ _ Hd), Hrest.
      cbn [_kbp_rng set_kbp_rng]. f_equal.
      rewrite <- advance_add. unfold set_kbp_rng. f_equal. f_equal.
      cbn [length]. lia.
    + eexists _, t'. by rewrite <- app_assoc.
Qed.

Lemma sample_loop_state self E with_answers (k : Z)
    (pre rest extra : list (list Z)) t :
  entity_to_index self = Some E → E ≠ ∅ →
  dict_get (config (shared_resources self)) "num_negative" (CInt 1) = CInt k →
  Forall (λ row, length row = 3%nat) rest →
  ∃ a,
    for_ (seq (length pre) (length rest)) (sample_negatives with_answers)
         (pre ++ rest ++ extra, targets with_answers t) self
    = (inr a,
       set_kbp_rng
         (advance (2 * Z.to_nat k * length rest) (Z.of_nat (size E))
            (_kbp_rng self)) self).
Proof.
  intros HE Hne Hk Hrows. revert self pre extra t HE Hk.
  induction Hrows as [|row rest Hrow _ IH]; intros self pre extra t HE Hk.
  - eexists. cbn [length seq for_]. rewrite Nat.mul_0_r.
    change (advance 0 (Z.of_nat (size E)) (_kbp_rng self))
      with (_kbp_rng self).
    by rewrite set_kbp_rng_id.
  - destruct (unpack3_length _ Hrow) as (s & p & o & ->).
    destruct (corrupt_rounds_state self E with_answers s p o (range k)
                (pre ++ ([s; p; o] :: rest) ++ extra) t HE Hne)
      as (a1 & Hrounds & negs & t' & ->).
    assert (sample_negatives with_answers
              (pre ++ ([s; p; o] :: rest) ++ extra, targets with_answers t)
              (length pre) self
            = (inr ((pre ++ ([s; p; o] :: rest) ++ extra) ++ negs,
                    targets with_answers t'),
               set_kbp_rng
                 (advance (2 * length (range k)) (Z.of_nat (size E))
                    (_kbp_rng self)) self)) as Hstep.
    { unfold sample_negatives. cbn [fst]. unfold getitem.
      rewrite <- app_comm_cons, list_lookup_middle by done.
      cbn [unpack3]. unfold bind at 1, lift at 1.
      unfold bind at 1, get at 1. rewrite Hk.
      unfold bind at 1, lift at 1. cbn [range_of].
      by rewrite app_comm_cons. }
    destruct (IH (set_kbp_rng
                    (advance (2 * length (range k)) (Z.of_nat (size E))
                       (_kbp_rng self)) self)
                (pre ++ [[s; p; o]]) (extra ++ negs) t')
      as (a & Hrest); [done|done|].
    exists a. cbn [length seq for_]. rewrite (bind_inr _ _ _ _ _ Hstep).
    rewrite length_app in Hrest. cbn [length] in Hrest.
    rewrite Nat.add_1_r in Hrest.
    replace ((pre ++ ([s; p; o] :: rest) ++ extra) ++ negs)
      with ((pre ++ [[s; p; o]]) ++ rest ++ extra ++ negs)
      by (by rewrite <- !app_assoc).
    rewrite Hrest. cbn [_kbp_rng set_kbp_rng]. f_equal.
    rewrite <- advance_add. unfold set_kbp_rng. f_equal. f_equal.
    unfold range. rewrite length_seq. lia.
Qed.

(** X14: a training batch of [n] positives with [num_negative = k] uses
    the module's random source for exactly [2 k n] draws below the number
    of entities and changes nothing else in the module: the next batch
    continues the same random sequence. *)
Theorem create_batch_advances_random_source self E (triples : list (list Z))
    (with_answers : bool) (k : Z) :
  entity_to_index self = Some E → E ≠ ∅ →
  Forall (λ row, length row = 3%nat) triples →
  dict_get (config (shared_resources self)) "num_negative" (CInt 1) = CInt k →
  ∃ out,
    create_batch triples false with_answers self
    = (inr out,
       set_kbp_rng
         (advance (2 * Z.to_nat k * length triples) (Z.of_nat (size E))
            (_kbp_rng self)) self).
Proof.
  intros HE Hne Hrows Hk.
  destruct (sample_loop_state self E with_answers k [] triples []
              (replicate (length triples) 1%Z) HE Hne Hk Hrows)
    as (a & Hloop).
  cbn [length app] in Hloop. rewrite app_nil_r in Hloop.
  assert (∃ out σ, create_batch triples false with_answers self = (inr out, σ))
    as (out & σ & Hrun).
  { destruct (create_batch_training self E triples with_answers k HE
                (λ _, Hne) Hk Hrows) as (negs & σ & Hrun & _).
    by eexists _, _. }
  exists out. rewrite Hrun. f_equal.
  unfold create_batch, list_copy in Hrun. cbn [negb] in Hrun.
  apply bind_inv in Hrun as (a' & σ1 & Hloop' & Hfinish).
  unfold targets in Hloop.
  assert (σ1 = set_kbp_rng
                 (advance (2 * Z.to_nat k * length triples)
                    (Z.of_nat (size E)) (_kbp_rng self)) self) as <-
    by congruence.
  clear Hloop Hloop'. destruct a' as [rows tg].
  destruct with_answers.
  - apply bind_inv in Hfinish as (t & σ2 & Hlocal & Hret).
    unfold lift in Hlocal. unfold ret in Hret. congruence.
  - unfold ret in Hfinish. congruence.
Qed.

End CreateBatchRandom.

(** ** From training set to training batch *)
Section Pipeline.
Context `{rt : Runtime} {Score : Type}.
Implicit Types (self : InputModule) (data : list (QASetting * list (Answer Score))).

Lemma training_questions_indexed data (E P : gmap string Z) :
  Forall (λ x, length (split (question x.1)) = 3%nat) data →
  bijection_onto_range E (observed_entities data) →
  bijection_onto_range P (observed_predicates data) →
  ∃ out, list_comp (index_question E P) (fst <$> data) = inr out
         ∧ length out = length data
         ∧ Forall (valid_triple E P) out.
Proof.
  intros Hwf HbE HbP.
  assert (Forall (known E P) (fst <$> data)) as Hknown.
  { apply Forall_fmap, Forall_forall. intros x Hx.
    rewrite Forall_forall in Hwf.
    destruct (unpack3_length _ (Hwf x Hx)) as (s & p & o & Hsplit).
    destruct (observed_tokens data x s p o Hx Hsplit) as (Hs & Ho & Hp).
    exists s, p, o. split; [done|].
    destruct HbE as (HE & _), HbP as (HP & _).
    repeat split; [by apply HE|by apply HP|by apply HE]. }
  destruct (list_comp_known E P _ Hknown) as (out & Hout & Hall).
  exists out. split; [done|]. split.
  - rewrite <- (Forall2_length _ _ _ Hall). by rewrite length_fmap.
  - apply Forall_lookup. intros i t Ht.
    destruct (Forall2_lookup_r _ _ _ _ _ Hall Ht) as (q & Hq & Hi).
    rewrite Forall_lookup in Hknown.
    destruct (index_question_known E P q (Hknown i q Hq))
      as (s & p & o & si & pi & oi & _ & Hs & Hp & Ho & Hi').
    rewrite Hi in Hi'. injection Hi' as ->.
    exists si, pi, oi. split; [done|].
    split; [by eapply bijection_in_range|].
    split; by eapply bijection_in_range.
Qed.

(** X15: the three steps compose. After [setup_from_data] on well-formed
    training questions, [preprocess] of those questions gives positives
    that [create_batch] accepts in training mode: the batch has
    [n * (1 + 2k)] rows for the configured [num_negative = k], and every
    row holds indices below the sizes of the two mappings that were
    published in the shared configuration. *)
Theorem training_pipeline data self (with_answers : bool)
    (answers : option (list (list (Answer Score)))) (k : Z) :
  Forall (λ x, length (split (question x.1)) = 3%nat) data →
  dict_get (config (shared_resources self)) "num_negative" (CInt 1) = CInt k →
  ∃ E P positives out self' rows,
    config (shared_resources (setup_from_data data self).2) !! "entity_to_index"
    = Some (CVocab E)
    ∧ config (shared_resources (setup_from_data data self).2)
      !! "predicate_to_index" = Some (CVocab P)
    ∧ preprocess (fst <$> data) answers false (setup_from_data data self).2
      = (inr positives, (setup_from_data data self).2)
    ∧ create_batch positives false with_answers (setup_from_data data self).2
      = (inr out, self')
    ∧ out !! Ports_Input_question = Some (Array2 rows)
    ∧ length rows = (length data * (1 + 2 * Z.to_nat k))%nat
    ∧ Forall (valid_triple E P) rows.
Proof.
  intros Hwf Hk.
  rewrite (setup_from_data_wellformed_state data) by done.
  change ((inr tt, vocabulary_state data self).2)
    with (vocabulary_state data self).
  destruct (built_vocabulary_bijections data Hwf) as [HbE HbP].
  set (E := index_dict (set_iter (built_entity_set data))) in *.
  set (P := index_dict (set_iter (built_predicate_set data))) in *.
  destruct (training_questions_indexed data E P Hwf HbE HbP)
    as (positives & Hout & Hlen & Hvalid).
  assert (dict_get (config (shared_resources (vocabulary_state data self)))
            "num_negative" (CInt 1) = CInt k) as Hk'.
  { unfold dict_get in *. rewrite vocabulary_state_config.
    by rewrite !lookup_insert_ne. }
  destruct (create_batch_valid_rows (vocabulary_state data self) E P positives
              with_answers k) as (rows & out & self' & Hrun & Hq & Hrows & Hn);
    [reflexivity|done|done|].
  exists E, P, positives, out, self', rows.
  rewrite vocabulary_state_config.
  split; [rewrite lookup_insert_ne by done; by rewrite lookup_insert_eq|].
  split; [by rewrite lookup_insert_eq|].
  split.
  { unfold preprocess. rewrite (preprocess_loop _ E P) by reflexivity.
    by rewrite Hout. }
  split; [done|]. split; [done|]. split; [by rewrite Hn, Hlen|done].
Qed.

End Pipeline.

(** ** Output conversion: the number of logits *)
Section OutputLengths.
Context {Score : Type}.
Implicit Types (inputs : list QASetting) (logits : list Score).

Lemma call_loop_short inputs logits (k : nat) (results : list (Answer Score)) :
  (length (drop k logits) < length inputs)%nat →
  for_ (imap (λ i x, (Z.of_nat (k + i), x)) inputs) (answer_at logits) results tt
  = (inl IndexError, tt).
Proof.
  revert k results. induction inputs as [|q inputs IH]; intros k results Hlen.
  - simpl in Hlen. lia.
  - cbn [imap for_]. unfold bind at 1. unfold answer_at at 1.
    unfold bind, lift, getitem, ret. rewrite Nat.add_0_r, Nat2Z.id.
    destruct (logits !! k) as [l|] eqn:Hk; [|done].
    rewrite (imap_ext _ (λ i x, (Z.of_nat (S k + i), x)))
      by (intros i x _; simpl; do 2 f_equal; lia).
    apply IH. rewrite length_drop in *. cbn [length] in Hlen.
    apply lookup_lt_Some in Hk. lia.
Qed.

(** X16: the output module needs a logit for every question and looks at
    no more: with at least as many logits as questions it returns one
    answer per question and ignores the logits beyond; with fewer it
    raises [IndexError] and returns no answer at all. *)
Theorem output_module_logit_count inputs logits :
  ((length inputs ≤ length logits)%nat →
   __call__ inputs logits tt = (inr (zip_with answer_of inputs logits), tt)
   ∧ length (zip_with answer_of inputs logits) = length inputs)
  ∧ ((length logits < length inputs)%nat →
     __call__ inputs logits tt = (inl IndexError, tt)).
Proof.
  split; intros Hlen; unfold __call__, enumerate.
  - split.
    + refine (eq_trans (call_loop inputs logits 0 [] _) _); [|done].
      rewrite drop_0. lia.
    + rewrite length_zip_with. lia.
  - refine (eq_trans (call_loop_short inputs logits 0 [] _) _); [|done].
    by rewrite drop_0.
Qed.

End OutputLengths.

(** ** The further properties on the example knowledge base *)

Lemma example_facts_wellformed :
  Forall (λ x : QASetting * list (Answer Z),
            length (split (question x.1)) = 3%nat) Example.facts.
Proof. by repeat constructor. Qed.

Lemma example_positives_valid :
  Forall (valid_triple Example.entities Example.predicates) Example.positives.
Proof.
  repeat constructor.
  - exists 0%Z, 0%Z, 1%Z. split; [done|]. by vm_compute.
  - exists 2%Z, 0%Z, 3%Z. split; [done|]. by vm_compute.
Qed.

Lemma example_positives_triples :
  Forall (λ row : list Z, length row = 3%nat) Example.positives.
Proof. by repeat constructor. Qed.

Lemma example_num_negative :
  dict_get (config (shared_resources Example.reader)) "num_negative" (CInt 1)
  = CInt 2.
Proof. by vm_compute. Qed.

Lemma setup_from_data_frame_witness :
  _kbp_rng (setup_from_data Example.facts Example.reader).2
  = _kbp_rng Example.reader
  ∧ config (shared_resources (setup_from_data Example.facts Example.reader).2)
    !! "num_negative" = Some (CInt 2).
Proof.
  destruct (setup_from_data_frame Example.facts Example.reader)
    as (Hrng & _ & Hcfg & _).
  split; [exact Hrng|]. by rewrite Hcfg.
Defined.

Lemma setup_from_data_vocabulary_sizes_witness :
  Example.facts ≠ []
  ∧ ∃ E P,
      entity_to_index (setup_from_data Example.facts Example.reader).2 = Some E
      ∧ predicate_to_index (setup_from_data Example.facts Example.reader).2
        = Some P
      ∧ (1 ≤ size E ≤ 4)%nat ∧ (1 ≤ size P ≤ 2)%nat.
Proof.
  split; [done|].
  destruct (setup_from_data_vocabulary_sizes Example.facts Example.reader
              example_facts_wellformed)
    as (E & P & HE & HP & HsE & HsP); [done|].
  by exists E, P.
Defined.

Lemma setup_then_preprocess_round_trip_witness :
  ∃ E P out,
    entity_to_index (setup_from_data Example.facts Example.reader).2 = Some E
    ∧ predicate_to_index (setup_from_data Example.facts Example.reader).2
      = Some P
    ∧ preprocess (Score := Z) (fst <$> Example.facts) None false
        (setup_from_data Example.facts Example.reader).2
      = (inr out, (setup_from_data Example.facts Example.reader).2)
    ∧ length out = 2%nat.
Proof.
  destruct (setup_then_preprocess_round_trip Example.facts Example.reader
              None false example_facts_wellformed)
    as (E & P & out & HE & HP & Hrun & Hlen & _).
  by exists E, P, out.
Defined.

Lemma preprocess_before_setup_witness :
  preprocess (Score := Z)
    ({| question := "a r b" |} :: [{| question := "c r d" |}]) None false
    (__init__ (rt := Example.runtime_a) {| config := ∅ |})
  = (inl (AttributeError "entity_to_index"), __init__ {| config := ∅ |}).
Proof.
  destruct (preprocess_before_setup (Score := Z)
              {| question := "a r b" |} [{| question := "c r d" |}] None false
              (__init__ (rt := Example.runtime_a) {| config := ∅ |}) eq_refl)
    as [_ Hrun].
  exact Hrun.
Defined.

Lemma create_batch_without_rounds_witness :
  ∃ out,
    create_batch Example.positives false true
      (set_config "num_negative" (CInt 0) Example.reader)
    = (inr out, set_config "num_negative" (CInt 0) Example.reader)
    ∧ out !! Ports_Input_question = Some (Array2 Example.positives)
    ∧ out !! Ports_Target_target_index = Some (Array1 [1; 1]%Z).
Proof.
  destruct (create_batch_without_rounds
              (set_config "num_negative" (CInt 0) Example.reader)
              Example.positives true 0 example_positives_triples)
    as (out & Hrun & Hq & Ht).
  - by vm_compute.
  - lia.
  - by exists out.
Defined.

Lemma create_batch_empty_vocabulary_witness :
  entity_to_index
    (setup_from_data (rt := Example.runtime_a) ([] : list (QASetting * list (Answer Z)))
       (__init__ {| config := ∅ |})).2 = Some ∅
  ∧ (create_batch ([0; 0; 0]%Z :: []) false true
       (setup_from_data (rt := Example.runtime_a)
          ([] : list (QASetting * list (Answer Z)))
          (__init__ {| config := ∅ |})).2).1
    = inl ValueError.
Proof.
  split; [reflexivity|].
  rewrite (create_batch_empty_vocabulary _ [0; 0; 0]%Z [] true 1).
  - reflexivity.
  - reflexivity.
  - reflexivity.
  - by vm_compute.
  - lia.
Defined.

Lemma create_batch_before_setup_witness :
  create_batch ([0; 0; 1]%Z :: []) false false
    (__init__ (rt := Example.runtime_a) {| config := ∅ |})
  = (inl (AttributeError "entity_to_index"), __init__ {| config := ∅ |}).
Proof.
  destruct (create_batch_before_setup
              (__init__ (rt := Example.runtime_a) {| config := ∅ |})
              [0; 0; 1]%Z [] false 1) as [Hrun _].
  - reflexivity.
  - reflexivity.
  - by vm_compute.
  - lia.
  - exact Hrun.
Defined.

Lemma create_batch_single_entity_witness :
  ∃ out self',
    create_batch [[0; 0; 0]%Z] false false
      (set_entity_to_index (index_dict ["a"]) Example.reader)
    = (inr out, self')
    ∧ out !! Ports_Input_question
      = Some (Array2 [[0; 0; 0]; [0; 0; 0]; [0; 0; 0]; [0; 0; 0]; [0; 0; 0]]%Z).
Proof.
  destruct (create_batch_single_entity
              (set_entity_to_index (index_dict ["a"]) Example.reader)
              (index_dict ["a"]) [[0; 0; 0]%Z] false 2)
    as (out & self' & Hrun & Hq).
  - reflexivity.
  - by vm_compute.
  - by repeat constructor.
  - by vm_compute.
  - by exists out, self'.
Defined.

Lemma create_batch_malformed_row_witness :
  length [0; 0]%Z ≠ 3%nat
  ∧ (create_batch (Example.positives ++ [0; 0]%Z :: []) false true
       Example.reader).1 = inl ValueError.
Proof.
  assert (length [0; 0]%Z ≠ 3%nat) as Hlen by done.
  split; [exact Hlen|].
  destruct (create_batch_malformed_row Example.reader Example.positives []
              [0; 0]%Z true Hlen) as [_ Hrun].
  apply (Hrun Example.entities 2%Z).
  - reflexivity.
  - by apply example_entities_nonempty.
  - exact example_positives_triples.
  - exact example_num_negative.
Defined.

Lemma create_batch_keeps_indices_valid_witness :
  ∃ rows out self',
    create_batch Example.positives false true Example.reader = (inr out, self')
    ∧ out !! Ports_Input_question = Some (Array2 rows)
    ∧ ∀ row, row ∈ rows → length row = 3%nat.
Proof.
  destruct (create_batch_keeps_indices_valid Example.reader Example.entities
              Example.predicates Example.positives true 2 eq_refl
              example_positives_valid example_num_negative)
    as (rows & out & self' & Hrun & Hq & Hrows).
  exists rows, out, self'. split; [exact Hrun|]. split; [exact Hq|].
  intros row Hrow. by destruct (Hrows row Hrow) as (s & p & o & -> & _).
Defined.

Lemma create_batch_keys_are_ports_witness :
  ∃ out,
    create_batch Example.positives true true Example.reader
    = (inr out, Example.reader)
    ∧ is_Some (out !! Ports_Target_target_index).
Proof.
  eexists. split; [apply create_batch_eval|].
  apply (create_batch_keys_are_ports Example.reader Example.positives true true
           _ Example.reader (create_batch_eval _ _ _)).
  right. split; [done|]. by left.
Defined.

Lemma create_batch_advances_random_source_witness :
  ∃ out,
    create_batch Example.positives false true Example.reader
    = (inr out,
       set_kbp_rng
         (advance (rt := Example.runtime_a) 8 4
            (_kbp_rng Example.reader)) Example.reader).
Proof.
  destruct (create_batch_advances_random_source Example.reader Example.entities
              Example.positives true 2) as (out & Hrun).
  - reflexivity.
  - by apply example_entities_nonempty.
  - exact example_positives_triples.
  - exact example_num_negative.
  - exists out. exact Hrun.
Defined.

Lemma training_pipeline_witness :
  ∃ positives out self' rows,
    preprocess (Score := Z) (fst <$> Example.facts) None false
      (setup_from_data Example.facts Example.reader).2
    = (inr positives, (setup_from_data Example.facts Example.reader).2)
    ∧ create_batch positives false true
        (setup_from_data Example.facts Example.reader).2
      = (inr out, self')
    ∧ out !! Ports_Input_question = Some (Array2 rows)
    ∧ length rows = 10%nat.
Proof.
  destruct (training_pipeline Example.facts Example.reader true None 2
              example_facts_wellformed example_num_negative)
    as (E & P & positives & out & self' & rows & _ & _ & Hpre & Hrun & Hq & Hn & _).
  by exists positives, out, self', rows.
Defined.

Lemma output_module_logit_count_witness :
  __call__ [{| question := "a r b" |}] [3; 4]%Z tt
  = (inr [{| text := "a r b"; score := 3%Z |}], tt)
  ∧ __call__ [{| question := "a r b" |}; {| question := "c r d" |}]
      [3]%Z tt
    = (inl IndexError, tt).
Proof.
  split.
  - destruct (output_module_logit_count [{| question := "a r b" |}] [3; 4]%Z)
      as [Hlong _].
    destruct Hlong as [Hrun _]; [simpl; lia|]. exact Hrun.
  - destruct (output_module_logit_count
                [{| question := "a r b" |}; {| question := "c r d" |}] [3]%Z)
      as [_ Hshort].
    apply Hshort. simpl. lia.
Defined.
